(** * Astron client agent: channel tracker and agent start-up

    A shallow embedding of [src/clientagent/ClientAgent.cpp]: the
    [ChannelTracker] helper class (constructor, [alloc_channel],
    [free_channel]), the [ClientAgent] constructor (DC hash, TLS material,
    acceptor, bind) and the two accept handlers [handle_tcp] and
    [handle_ssl]. *)

From stdpp Require Import base numbers list strings.

Open Scope N_scope.

(** ** Channels *)

(** [channel_t] is an unsigned machine integer.  Its typedef lives in a
    header outside this file, so the bit width is a parameter of everything
    that does arithmetic on channels (64 in a default build). *)
Abbreviation channel_t := N.

(** The largest value a [channel_t] of [channel_bits] bits holds. *)
Definition CHANNEL_MAX (channel_bits : N) : channel_t := 2 ^ channel_bits - 1.

(** Modelled from the spec: the [INVALID_CHANNEL] macro (the default of the
    [min] and [max] configuration variables) is defined in a header outside
    this file; the invalid-channel sentinel is the value 0. *)
Definition INVALID_CHANNEL : channel_t := 0.

(** ** ChannelTracker *)

(** The three data members of the class; [m_unused_channels] is a
    [std::queue], front of the queue first. *)
Record ChannelTracker : Type := mkChannelTracker {
  m_next : channel_t;
  m_max : channel_t;
  m_unused_channels : list channel_t
}.

(** [ChannelTracker::ChannelTracker(min, max)]. *)
Definition ChannelTracker_new (min max : channel_t) : ChannelTracker :=
  {| m_next := min; m_max := max; m_unused_channels := [] |}.

Section Tracker.

Variable channel_bits : N.

(** [c++] on a [channel_t]: unsigned increment, modulo [2 ^ channel_bits]. *)
Definition incr (c : channel_t) : channel_t := (c + 1) mod 2 ^ channel_bits.

(** [ChannelTracker::alloc_channel]: the returned channel and the tracker
    after the call. *)
Definition alloc_channel (ct : ChannelTracker) : channel_t * ChannelTracker :=
  if m_next ct <=? m_max ct then
    (m_next ct,
     {| m_next := incr (m_next ct);
        m_max := m_max ct;
        m_unused_channels := m_unused_channels ct |})
  else
    match m_unused_channels ct with
    | c :: rest =>
        (c, {| m_next := m_next ct; m_max := m_max ct; m_unused_channels := rest |})
    | [] => (0, ct)
    end.

(** [ChannelTracker::free_channel]: [push] appends at the back of the queue. *)
Definition free_channel (ct : ChannelTracker) (channel : channel_t) : ChannelTracker :=
  {| m_next := m_next ct;
     m_max := m_max ct;
     m_unused_channels := m_unused_channels ct ++ [channel] |}.

(** Control reaches the final [return 0] of [alloc_channel]: the cursor is
    past [m_max] and the queue is empty. *)
Definition exhausted (ct : ChannelTracker) : bool :=
  negb (m_next ct <=? m_max ct) && bool_decide (m_unused_channels ct = []).

(** [n] calls of [alloc_channel] in a row: the values returned, in order,
    and the tracker after the last call. *)
Fixpoint alloc_many (n : nat) (ct : ChannelTracker) : list channel_t * ChannelTracker :=
  match n with
  | O => ([], ct)
  | S n' =>
      let '(c, ct1) := alloc_channel ct in
      let '(cs, ct2) := alloc_many n' ct1 in
      (c :: cs, ct2)
  end.


End Tracker.

(** ** Sessions using a tracker

    The tracker itself keeps no record of who holds what.  To state the
    properties of a sequence of calls, the calls are replayed next to two
    lists the class does not have: the channels currently held by a caller
    ([live], one entry per successful allocation not yet released) and every
    channel ever handed out ([issued]). *)

Inductive tracker_call : Type :=
| Alloc
| Free (id : channel_t).

Record Pool : Type := mkPool {
  tracker : ChannelTracker;
  live : list channel_t;
  issued : list channel_t
}.

Definition Pool_new (min max : channel_t) : Pool :=
  {| tracker := ChannelTracker_new min max; live := []; issued := [] |}.

(** Drop the first occurrence of [x]: one holder gives its channel back. *)
Fixpoint remove_first (x : channel_t) (l : list channel_t) : list channel_t :=
  match l with
  | [] => []
  | y :: l' => if decide (x = y) then l' else y :: remove_first x l'
  end.

Section Calls.

Variable channel_bits : N.

(** One call.  An allocation that does not end in the final [return 0]
    hands its result to a new holder. *)
Definition call (p : Pool) (c : tracker_call) : Pool :=
  match c with
  | Alloc =>
      let '(ch, ct') := alloc_channel channel_bits (tracker p) in
      if exhausted (tracker p)
      then {| tracker := ct'; live := live p; issued := issued p |}
      else {| tracker := ct'; live := ch :: live p; issued := ch :: issued p |}
  | Free id =>
      {| tracker := free_channel (tracker p) id;
         live := remove_first id (live p);
         issued := issued p |}
  end.

Definition calls (p : Pool) (cs : list tracker_call) : Pool := foldl call p cs.

(** The caller contract of [free_channel]: every released id is held by a
    caller at the time of the release. *)
Fixpoint releases_live (p : Pool) (cs : list tracker_call) : bool :=
  match cs with
  | [] => true
  | c :: cs' =>
      match c with
      | Alloc => true
      | Free id => bool_decide (id ∈ live p)
      end && releases_live (call p c) cs'
  end.

(** The weaker contract: every released id was handed out before. *)
Fixpoint releases_issued (p : Pool) (cs : list tracker_call) : bool :=
  match cs with
  | [] => true
  | c :: cs' =>
      match c with
      | Alloc => true
      | Free id => bool_decide (id ∈ issued p)
      end && releases_issued (call p c) cs'
  end.

End Calls.

(** The configured range [min, max] leaves out channel 0. *)
Definition range_excludes_zero (min max : channel_t) : Prop :=
  ∀ c, min ≤ c ≤ max → c ≠ 0.

(** ** Effects of the agent

    The constructor and the accept handlers log, create acceptors, bind,
    call into the client factory and may leave through [exit] or an
    exception.  A computation yields the events it performed, in order, and
    the way it ended. *)

Record endpoint : Type := mkEndpoint {
  address : string;
  port : N
}.

(** A [tcp::socket]; [remote_endpoint] is [None] when the call raises
    (the peer is gone). *)
Record socket : Type := mkSocket {
  native_handle : N;
  remote_endpoint : option endpoint
}.

(** An [ssl::stream<tcp::socket>]. *)
Record ssl_stream : Type := mkSslStream {
  next_layer : socket
}.

Inductive connection : Type :=
| TcpConnection (s : socket)
| SslConnection (s : ssl_stream).

(** The [ssl::context] handed to the [SslAcceptor]. *)
Record ssl_context : Type := mkSslContext {
  ctx_options : Z;
  ctx_certificate_file : string;
  ctx_private_key_file : string;
  ctx_certificate_chain_file : option string
}.

Inductive acceptor : Type :=
| TcpAcceptor
| SslAcceptor (ctx : ssl_context).

Inductive log_level : Type := Debug | Fatal.

Inductive log_message : Type :=
| TlsMaterialMissing          (* "TLS requested but either certificate or key is missing." *)
| CouldNotBind (addr : string)  (* "Could not bind listening port: " addr *)
| BindErrorCode (ec : Z)        (* "Error code: " ec "(" message ")" *)
| IncomingConnection (remote : endpoint). (* "Got an incoming connection from " remote *)

Inductive outcome (A : Type) : Type :=
| Returned (a : A)
| Exited (status : Z)
| Threw.
Arguments Returned {A} a.
Arguments Exited {A} status.
Arguments Threw {A}.

Section Agent.

(** The YAML node of the [client] group and the loaded DC file are opaque
    here, and [dclass::legacy_hash] (a [uint32_t]) is a function of the DC
    file defined elsewhere. *)
Context {ConfigNode DCFile : Type}.
Variable legacy_hash : DCFile → N.

(** The [ssl::context] option bits of Boost.Asio. *)
Variables default_workarounds no_sslv2 no_sslv3 no_tlsv1 : Z.

Variable channel_bits : N.

Inductive event : Type :=
| Log (level : log_level) (msg : log_message)
| NewAcceptor (a : acceptor)
| Bind (addr : string) (default_port : N)
| Start
| InstantiateClient (client_type : string) (config : ConfigNode) (conn : connection).

Definition M (A : Type) : Type := list event * outcome A.

Definition ret {A} (a : A) : M A := ([], Returned a).

(** Sequencing: the events of [m], then those of [k]; nothing runs after
    an [exit] or an uncaught exception. *)
Definition bind {A B} (k : A → M B) (m : M A) : M B :=
  match m with
  | (es, Returned a) => let '(es', o) := k a in (es ++ es', o)
  | (es, Exited status) => (es, Exited status)
  | (es, Threw) => (es, Threw)
  end.

#[local] Instance M_ret : MRet M := @ret.
#[local] Instance M_bind : MBind M := @bind.

Definition emit (e : event) : M unit := ([e], Returned tt).
Definition exit {A} (status : Z) : M A := ([], Exited status).
Definition throw {A} : M A := ([], Threw).

(** The values the constructor reads from its role configuration with
    [get_rval], by variable. *)
Record RoleConfig : Type := mkRoleConfig {
  bind_addr : string;
  server_version : string;
  override_hash : N;
  tls_cert : string;
  tls_key : string;
  tls_chain : string;
  sslv2_enabled : bool;
  sslv3_enabled : bool;
  tlsv1_enabled : bool;
  min_channel : channel_t;
  max_channel : channel_t;
  ca_client_type : string;
  ca_client_config : ConfigNode
}.

(** What the constructor meets outside the process: whether each PEM file
    loads into the context (the [use_*_file] calls throw when it does not),
    the error code of [bind], and the global value of [bind] that the
    failure message prints ([bind_addr.get_val()]). *)
Record Environment : Type := mkEnvironment {
  certificate_file_loads : string → bool;
  private_key_file_loads : string → bool;
  certificate_chain_file_loads : string → bool;
  bind_error : string → N → Z;
  bind_addr_val : string
}.

Record ClientAgent : Type := mkClientAgent {
  m_roleconfig : RoleConfig;
  m_net_acceptor : acceptor;
  m_server_version : string;
  m_client_type : string;
  m_ct : ChannelTracker;
  m_clientconfig : ConfigNode;
  m_hash : N
}.

Definition empty (s : string) : bool := bool_decide (s = "").

(** An [ssl::context] call that throws unless the file loads. *)
Definition load (ok : bool) : M unit := if ok then ret tt else throw.

(** The SSL branch of the constructor up to the acceptor. *)
Definition ssl_acceptor (env : Environment) (roleconfig : RoleConfig)
    (certificate : string) : M acceptor :=
  let options := default_workarounds in
  let options := if negb (sslv2_enabled roleconfig) then Z.lor options no_sslv2 else options in
  let options := if negb (sslv3_enabled roleconfig) then Z.lor options no_sslv3 else options in
  let options := if negb (tlsv1_enabled roleconfig) then Z.lor options no_tlsv1 else options in
  load (certificate_file_loads env certificate) ;;
  load (private_key_file_loads env (tls_key roleconfig)) ;;
  let chain_file := tls_chain roleconfig in
  chain ← (if negb (empty chain_file)
            then load (certificate_chain_file_loads env chain_file) ;; ret (Some chain_file)
            else ret None);
  let a := SslAcceptor {| ctx_options := options;
                          ctx_certificate_file := certificate;
                          ctx_private_key_file := tls_key roleconfig;
                          ctx_certificate_chain_file := chain |} in
  emit (NewAcceptor a) ;;
  ret a.

(** [ClientAgent::ClientAgent(roleconfig)], with the global DC file
    [g_dcf]. *)
Definition ClientAgent_new (env : Environment) (g_dcf : DCFile)
    (roleconfig : RoleConfig) : M ClientAgent :=
  let client_type := ca_client_type roleconfig in
  let ct := ChannelTracker_new (min_channel roleconfig) (max_channel roleconfig) in
  let clientconfig := ca_client_config roleconfig in
  let config_hash := override_hash roleconfig in
  let hash := if 0 <? config_hash then config_hash else legacy_hash g_dcf in
  let certificate := tls_cert roleconfig in
  let key_file := tls_key roleconfig in
  net_acceptor ←
    (if empty certificate && empty key_file then
       emit (NewAcceptor TcpAcceptor) ;; ret TcpAcceptor
     else if negb (eqb (empty certificate) (empty key_file)) then
       emit (Log Fatal TlsMaterialMissing) ;; exit 1
     else
       ssl_acceptor env roleconfig certificate);
  emit (Bind (bind_addr roleconfig) 7198) ;;
  let ec := bind_error env (bind_addr roleconfig) 7198 in
  (if negb (ec =? 0)%Z then
     emit (Log Fatal (CouldNotBind (bind_addr_val env))) ;;
     emit (Log Fatal (BindErrorCode ec)) ;;
     exit 1
   else ret tt) ;;
  emit Start ;;
  ret {| m_roleconfig := roleconfig;
         m_net_acceptor := net_acceptor;
         m_server_version := server_version roleconfig;
         m_client_type := client_type;
         m_ct := ct;
         m_clientconfig := clientconfig;
         m_hash := hash |}.

(** [ClientAgent::handle_tcp]. *)
Definition handle_tcp (this : ClientAgent) (sock : socket) : M ClientAgent :=
  match remote_endpoint sock with
  | None => ret this
  | Some remote =>
      emit (Log Debug (IncomingConnection remote)) ;;
      emit (InstantiateClient (m_client_type this) (m_clientconfig this)
              (TcpConnection sock)) ;;
      ret this
  end.

(** [ClientAgent::handle_ssl]. *)
Definition handle_ssl (this : ClientAgent) (stream : ssl_stream) : M ClientAgent :=
  match remote_endpoint (next_layer stream) with
  | None => ret this
  | Some remote =>
      emit (Log Debug (IncomingConnection remote)) ;;
      emit (InstantiateClient (m_client_type this) (m_clientconfig this)
              (SslConnection stream)) ;;
      ret this
  end.

(** [ClientAgent::handle_datagram]: an empty body. *)
Definition handle_datagram (this : ClientAgent) : M ClientAgent := ret this.

(** What happens to a constructed agent: the acceptor hands it a
    connection, the message director a datagram, or a client uses the
    tracker [m_ct]. *)
Inductive agent_call : Type :=
| HandleTcp (sock : socket)
| HandleSsl (stream : ssl_stream)
| HandleDatagram
| AllocChannel
| FreeChannel (channel : channel_t).

Definition with_ct (this : ClientAgent) (ct : ChannelTracker) : ClientAgent :=
  {| m_roleconfig := m_roleconfig this;
     m_net_acceptor := m_net_acceptor this;
     m_server_version := m_server_version this;
     m_client_type := m_client_type this;
     m_ct := ct;
     m_clientconfig := m_clientconfig this;
     m_hash := m_hash this |}.

Definition agent_call_run (this : ClientAgent) (c : agent_call) : M ClientAgent :=
  match c with
  | HandleTcp sock => handle_tcp this sock
  | HandleSsl stream => handle_ssl this stream
  | HandleDatagram => handle_datagram this
  | AllocChannel => ret (with_ct this (snd (alloc_channel channel_bits (m_ct this))))
  | FreeChannel channel => ret (with_ct this (free_channel (m_ct this) channel))
  end.

Fixpoint agent_calls (this : ClientAgent) (cs : list agent_call) : M ClientAgent :=
  match cs with
  | [] => ret this
  | c :: cs' => this' ← agent_call_run this c; agent_calls this' cs'
  end.

(** The events that attempt a bind, and those that log. *)
Definition is_bind (e : event) : bool :=
  match e with Bind _ _ => true | _ => false end.
Definition is_log (e : event) : bool :=
  match e with Log _ _ => true | _ => false end.

End Agent.

(** ** A concrete deployment

    The defaults of the configuration variables as the file declares them
    ([bind], [version], [manual_dc_hash], the [tls] group, the [channels]
    group, [client.type]), with the client node and the DC file reduced to
    a name, and surroundings where every file loads and the bind
    succeeds. *)
Definition default_config : @RoleConfig string :=
  {| bind_addr := "0.0.0.0:7198";
     server_version := "dev";
     override_hash := 0;
     tls_cert := "";
     tls_key := "";
     tls_chain := "";
     sslv2_enabled := false;
     sslv3_enabled := false;
     tlsv1_enabled := true;
     min_channel := INVALID_CHANNEL;
     max_channel := INVALID_CHANNEL;
     ca_client_type := "libastron";
     ca_client_config := "client" |}.

(** The defaults with a channel range, a hash override and TLS paths
    filled in. *)
Definition configure (min max : channel_t) (hash : N) (cert key : string)
  : @RoleConfig string :=
  {| bind_addr := bind_addr default_config;
     server_version := server_version default_config;
     override_hash := hash;
     tls_cert := cert;
     tls_key := key;
     tls_chain := tls_chain default_config;
     sslv2_enabled := sslv2_enabled default_config;
     sslv3_enabled := sslv3_enabled default_config;
     tlsv1_enabled := tlsv1_enabled default_config;
     min_channel := min;
     max_channel := max;
     ca_client_type := ca_client_type default_config;
     ca_client_config := ca_client_config default_config |}.

Definition friendly : Environment :=
  {| certificate_file_loads := λ _, true;
     private_key_file_loads := λ _, true;
     certificate_chain_file_loads := λ _, true;
     bind_error := λ _ _, 0%Z;
     bind_addr_val := "0.0.0.0:7198" |}.

(** A stand-in for [dclass::legacy_hash] on DC files given by name: the
    length of the name. *)
Definition sample_hash (dcf : string) : N := N.of_nat (String.length dcf).

(** The constructor with [sample_hash] and sample option bits. *)
Definition sample_agent (env : Environment) (g_dcf : string)
    (roleconfig : @RoleConfig string) : M ClientAgent :=
  ClientAgent_new sample_hash 0x80000BFF 0x01000000 0x02000000 0x04000000
    env g_dcf roleconfig.

(** The agent that [sample_agent] returns for the defaults with the
    channel range [1000000, 1999999]. *)
Definition listening_agent : @ClientAgent string :=
  {| m_roleconfig := configure 1000000 1999999 0 "" "";
     m_net_acceptor := TcpAcceptor;
     m_server_version := "dev";
     m_client_type := "libastron";
     m_ct := ChannelTracker_new 1000000 1999999;
     m_clientconfig := "client";
     m_hash := sample_hash "astron.dc" |}.

(** ** The invariant of a well-used tracker

    What holds of a pool whose callers keep the contract of
    [free_channel]: no channel is held or queued twice, everything held or
    queued lies below the cursor, and everything held or queued was handed
    out. *)
Definition pool_inv (p : Pool) : Prop :=
  NoDup (live p ++ m_unused_channels (tracker p))
  ∧ (∀ id, id ∈ live p ++ m_unused_channels (tracker p) → id < m_next (tracker p))
  ∧ (∀ id, id ∈ live p ++ m_unused_channels (tracker p) → id ∈ issued p).

(** What holds when the range leaves out 0 and only handed-out ids are
    released: 0 is neither the next fresh id, nor queued, nor handed out. *)
Definition nonzero_inv (p : Pool) : Prop :=
  (m_next (tracker p) ≤ m_max (tracker p) → 0 < m_next (tracker p))
  ∧ (0 ∉ m_unused_channels (tracker p))
  ∧ (0 ∉ issued p).

(** ** Accounting for the range

    The ids [first], [first + 1], ... ([n] of them): what a tracker has
    handed out fresh once its cursor has moved [n] steps. *)
Fixpoint count_up (first : channel_t) (n : nat) : list channel_t :=
  match n with
  | O => []
  | S n' => first :: count_up (first + 1) n'
  end.

(** What holds of a pool over a range starting at [min] whose callers keep
    the contract of [free_channel]: the cursor has not moved below [min]
    nor further than one past [m_max], and the ids held or queued are
    exactly the ids between [min] and the cursor, each once. *)
Definition range_inv (min : channel_t) (p : Pool) : Prop :=
  min ≤ m_next (tracker p)
  ∧ (m_next (tracker p) ≤ m_max (tracker p) + 1 ∨ m_next (tracker p) = min)
  ∧ live p ++ m_unused_channels (tracker p)
    ≡ₚ count_up min (N.to_nat (m_next (tracker p) - min)).

(** The tracker alone under a sequence of calls, results dropped. *)
Definition tracker_run (channel_bits : N) (ct : ChannelTracker)
    (cs : list tracker_call) : ChannelTracker :=
  foldl (λ ct c,
           match c with
           | Alloc => snd (alloc_channel channel_bits ct)
           | Free id => free_channel ct id
           end) ct cs.

(** ** Reading a run of the agent *)

(** The connections handed to the client factory, in order. *)
Fixpoint instantiated {ConfigNode : Type} (es : list (@event ConfigNode))
  : list connection :=
  match es with
  | [] => []
  | InstantiateClient _ _ conn :: es' => conn :: instantiated es'
  | _ :: es' => instantiated es'
  end.

(** The accepted connections whose peer is still there when its address is
    resolved, in order. *)
Fixpoint present_peers (cs : list agent_call) : list connection :=
  match cs with
  | [] => []
  | HandleTcp sock :: cs' =>
      match remote_endpoint sock with
      | Some _ => TcpConnection sock :: present_peers cs'
      | None => present_peers cs'
      end
  | HandleSsl stream :: cs' =>
      match remote_endpoint (next_layer stream) with
      | Some _ => SslConnection stream :: present_peers cs'
      | None => present_peers cs'
      end
  | _ :: cs' => present_peers cs'
  end.

(** The tracker calls among the calls on an agent, in order. *)
Fixpoint tracker_calls (cs : list agent_call) : list tracker_call :=
  match cs with
  | [] => []
  | AllocChannel :: cs' => Alloc :: tracker_calls cs'
  | FreeChannel channel :: cs' => Free channel :: tracker_calls cs'
  | _ :: cs' => tracker_calls cs'
  end.

(** * Properties of the channel tracker *)

Lemma incr_no_wrap bits c : c < CHANNEL_MAX bits → incr bits c = c + 1.
Proof.
  unfold CHANNEL_MAX, incr. intros Hc.
  apply N.mod_small. lia.
Qed.

Lemma incr_le bits c : incr bits c ≤ c + 1.
Proof.
  unfold incr. apply N.Div0.mod_le.
Qed.

Lemma alloc_channel_fresh bits ct :
  m_next ct ≤ m_max ct →
  alloc_channel bits ct
  = (m_next ct,
     {| m_next := incr bits (m_next ct);
        m_max := m_max ct;
        m_unused_channels := m_unused_channels ct |}).
Proof.
  intros Hle. unfold alloc_channel.
  destruct (N.leb_spec (m_next ct) (m_max ct)) as [_ | Hgt]; [reflexivity | lia].
Qed.

Lemma alloc_channel_reuse bits ct oldest rest :
  m_max ct < m_next ct →
  m_unused_channels ct = oldest :: rest →
  alloc_channel bits ct
  = (oldest, {| m_next := m_next ct; m_max := m_max ct; m_unused_channels := rest |}).
Proof.
  intros Hgt Hq. unfold alloc_channel.
  destruct (N.leb_spec (m_next ct) (m_max ct)) as [Hle | _]; [lia |].
  rewrite Hq. reflexivity.
Qed.

Lemma alloc_channel_exhausted bits ct :
  m_max ct < m_next ct →
  m_unused_channels ct = [] →
  alloc_channel bits ct = (0, ct).
Proof.
  intros Hgt Hq. unfold alloc_channel.
  destruct (N.leb_spec (m_next ct) (m_max ct)) as [Hle | _]; [lia |].
  rewrite Hq. reflexivity.
Qed.

Lemma exhausted_spec ct :
  exhausted ct = true ↔ m_max ct < m_next ct ∧ m_unused_channels ct = [].
Proof.
  unfold exhausted.
  rewrite andb_true_iff, negb_true_iff, N.leb_gt, bool_decide_eq_true.
  reflexivity.
Qed.


(** Past the range, the queue is drained front to back. *)
Lemma alloc_many_drains bits next max queue :
  max < next →
  alloc_many bits (length queue)
    {| m_next := next; m_max := max; m_unused_channels := queue |}
  = (queue, {| m_next := next; m_max := max; m_unused_channels := [] |}).
Proof.
  intros Hgt.
  induction queue as [| c queue IH]; simpl.
  - reflexivity.
  - rewrite (alloc_channel_reuse bits _ c queue) by (simpl; first [lia | reflexivity]).
    simpl. rewrite IH. reflexivity.
Qed.



(** C2: on a tracker over [100, 102] whose channel type has room for the
    cursor one past 102, four calls of [alloc_channel] return 100, 101, 102
    and then 0, the fourth from the exhausted tracker; after
    [free_channel(101)] the next call returns 101. *)
Theorem range_100_102_reuse (bits : N) :
  102 < CHANNEL_MAX bits →
  let '(first4, ct4) := alloc_many bits 4 (ChannelTracker_new 100 102) in
  first4 = [100; 101; 102; 0]
  ∧ exhausted (snd (alloc_many bits 3 (ChannelTracker_new 100 102))) = true
  ∧ fst (alloc_channel bits (free_channel ct4 101)) = 101.
Proof.
  intros Hfit.
  assert (H100 : incr bits 100 = 101) by (rewrite incr_no_wrap; lia).
  assert (H101 : incr bits 101 = 102) by (rewrite incr_no_wrap; lia).
  assert (H102 : incr bits 102 = 103) by (rewrite incr_no_wrap; lia).
  unfold alloc_many, ChannelTracker_new.
  rewrite alloc_channel_fresh by (simpl; lia). cbn [m_next m_max m_unused_channels].
  rewrite H100.
  rewrite alloc_channel_fresh by (simpl; lia). cbn [m_next m_max m_unused_channels].
  rewrite H101.
  rewrite alloc_channel_fresh by (simpl; lia). cbn [m_next m_max m_unused_channels].
  rewrite H102.
  rewrite alloc_channel_exhausted by (simpl; first [lia | reflexivity]).
  repeat split.
Qed.

(** The 64-bit build. *)
Lemma range_100_102_reuse_witness :
  let '(first4, ct4) := alloc_many 64 4 (ChannelTracker_new 100 102) in
  first4 = [100; 101; 102; 0]
  ∧ exhausted (snd (alloc_many 64 3 (ChannelTracker_new 100 102))) = true
  ∧ fst (alloc_channel 64 (free_channel ct4 101)) = 101.
Proof.
  apply (range_100_102_reuse 64). vm_compute. reflexivity.
Defined.

(** C5: [free_channel] appends its argument to the back of the reuse queue
    and touches nothing else, for every tracker and every id; it looks
    neither at the cursor nor at the queue.  The id need not have been
    handed out: once the range is used up, whatever was released is what
    [alloc_channel] returns after the ids queued before it. *)
Theorem free_channel_enqueues (bits : N) (ct : ChannelTracker) (id : channel_t) :
  m_unused_channels (free_channel ct id) = m_unused_channels ct ++ [id]
  ∧ m_next (free_channel ct id) = m_next ct
  ∧ m_max (free_channel ct id) = m_max ct
  ∧ (∀ p, tracker p = ct →
       tracker (call bits p (Free id)) = free_channel ct id
       ∧ issued (call bits p (Free id)) = issued p)
  ∧ (m_max ct < m_next ct →
     alloc_many bits (length (m_unused_channels ct) + 1) (free_channel ct id)
     = (m_unused_channels ct ++ [id],
        {| m_next := m_next ct; m_max := m_max ct; m_unused_channels := [] |})).
Proof.
  split; [reflexivity |]. split; [reflexivity |]. split; [reflexivity |]. split.
  - intros p <-. split; reflexivity.
  - intros Hgt.
    replace (length (m_unused_channels ct) + 1)%nat
      with (length (m_unused_channels ct ++ [id]))
      by (rewrite length_app; reflexivity).
    unfold free_channel. apply alloc_many_drains. exact Hgt.
Qed.

(** An id that was never handed out is queued and handed out later. *)
Lemma free_channel_enqueues_witness :
  alloc_many 64 2 (free_channel {| m_next := 103; m_max := 102; m_unused_channels := [101] |} 5)
  = ([101; 5], {| m_next := 103; m_max := 102; m_unused_channels := [] |}).
Proof.
  apply (free_channel_enqueues 64
           {| m_next := 103; m_max := 102; m_unused_channels := [101] |} 5).
  simpl. lia.
Defined.

(** ** Sequences of calls *)

Lemma remove_first_perm (x : channel_t) (l : list channel_t) :
  x ∈ l → l ≡ₚ x :: remove_first x l.
Proof.
  induction l as [| y l IH]; intros Hin.
  - inversion Hin.
  - simpl. destruct (decide (x = y)) as [-> | Hne].
    + reflexivity.
    + rewrite Permutation_swap. apply Permutation_skip, IH.
      apply elem_of_cons in Hin as [Heq | Hin]; [contradiction | exact Hin].
Qed.

Lemma call_m_max bits p c : m_max (tracker (call bits p c)) = m_max (tracker p).
Proof.
  destruct c as [| id]; [| reflexivity].
  unfold call, alloc_channel.
  destruct (m_next (tracker p) <=? m_max (tracker p));
    [| destruct (m_unused_channels (tracker p))];
    destruct (exhausted (tracker p)); reflexivity.
Qed.

Lemma calls_m_max bits cs p : m_max (tracker (calls bits p cs)) = m_max (tracker p).
Proof.
  unfold calls. revert p.
  induction cs as [| c cs IH]; intros p; simpl; [reflexivity |].
  rewrite IH. apply call_m_max.
Qed.

(** The three shapes of an allocation, on the pool. *)
Lemma call_alloc_cases bits p :
  (m_next (tracker p) ≤ m_max (tracker p)
   ∧ call bits p Alloc
     = {| tracker := {| m_next := incr bits (m_next (tracker p));
                        m_max := m_max (tracker p);
                        m_unused_channels := m_unused_channels (tracker p) |};
          live := m_next (tracker p) :: live p;
          issued := m_next (tracker p) :: issued p |})
  ∨ (∃ c rest,
       m_max (tracker p) < m_next (tracker p)
       ∧ m_unused_channels (tracker p) = c :: rest
       ∧ call bits p Alloc
         = {| tracker := {| m_next := m_next (tracker p);
                            m_max := m_max (tracker p);
                            m_unused_channels := rest |};
              live := c :: live p;
              issued := c :: issued p |})
  ∨ (m_max (tracker p) < m_next (tracker p)
     ∧ m_unused_channels (tracker p) = []
     ∧ call bits p Alloc = p).
Proof.
  unfold call, exhausted, alloc_channel.
  destruct (N.leb_spec (m_next (tracker p)) (m_max (tracker p))) as [Hle | Hgt].
  - left. split; [exact Hle | reflexivity].
  - destruct (m_unused_channels (tracker p)) as [| c rest] eqn:Hq.
    + right. right. repeat split; [exact Hgt |]. destruct p; reflexivity.
    + right. left. exists c, rest. repeat split. exact Hgt.
Qed.

Lemma pool_inv_new min max : pool_inv (Pool_new min max).
Proof.
  repeat split; simpl.
  - constructor.
  - intros id Hin. inversion Hin.
  - intros id Hin. inversion Hin.
Qed.

(** A release that keeps the contract moves one entry from [live] to the
    queue. *)
Lemma free_live_perm bits p id :
  id ∈ live p →
  live (call bits p (Free id)) ++ m_unused_channels (tracker (call bits p (Free id)))
  ≡ₚ live p ++ m_unused_channels (tracker p).
Proof.
  intros Hin. simpl.
  rewrite (remove_first_perm id (live p) Hin) at 2.
  rewrite app_assoc, <- Permutation_cons_append. reflexivity.
Qed.

Lemma call_pool_inv bits p c :
  m_max (tracker p) < CHANNEL_MAX bits →
  pool_inv p →
  match c with Alloc => True | Free id => id ∈ live p end →
  pool_inv (call bits p c).
Proof.
  intros Hmax (Hnodup & Hbelow & Hissued) Hc.
  destruct c as [| id].
  - destruct (call_alloc_cases bits p)
      as [(Hle & ->) | [(c & rest & Hgt & Hq & ->) | (_ & _ & ->)]].
    + (* a fresh id: it lies above everything held or queued *)
      rewrite incr_no_wrap by lia.
      repeat split; simpl.
      * constructor; [| exact Hnodup].
        intros Hin. apply Hbelow in Hin. lia.
      * intros id Hin. apply elem_of_cons in Hin as [-> | Hin]; [lia |].
        apply Hbelow in Hin. lia.
      * intros id Hin. apply elem_of_cons in Hin as [-> | Hin]; [left |].
        right. apply Hissued, Hin.
    + (* a reused id: it moves from the queue to a holder *)
      rewrite Hq in Hnodup, Hbelow, Hissued.
      assert (Hperm : c :: live p ++ rest ≡ₚ live p ++ c :: rest)
        by apply Permutation_middle.
      repeat split; simpl.
      * change (NoDup (c :: live p ++ rest)). rewrite Hperm. exact Hnodup.
      * intros id Hin. change (id ∈ c :: live p ++ rest) in Hin.
        rewrite Hperm in Hin. apply Hbelow, Hin.
      * intros id Hin. change (id ∈ c :: live p ++ rest) in Hin.
        rewrite Hperm in Hin.
        destruct (decide (id = c)) as [-> | Hne]; [left |].
        right. apply Hissued, Hin.
    + repeat split; assumption.
  - pose proof (free_live_perm bits p id Hc) as Hperm.
    repeat split.
    + rewrite Hperm. exact Hnodup.
    + intros x Hin. rewrite Hperm in Hin. apply Hbelow, Hin.
    + intros x Hin. rewrite Hperm in Hin. apply Hissued, Hin.
Qed.

Lemma calls_pool_inv bits cs p :
  m_max (tracker p) < CHANNEL_MAX bits →
  pool_inv p →
  releases_live bits p cs = true →
  pool_inv (calls bits p cs).
Proof.
  unfold calls. revert p.
  induction cs as [| c cs IH]; intros p Hmax Hinv Hok; simpl; [exact Hinv |].
  simpl in Hok. apply andb_true_iff in Hok as [Hc Hcs].
  apply IH.
  - rewrite call_m_max. exact Hmax.
  - apply call_pool_inv; [exact Hmax | exact Hinv |].
    destruct c; [exact I |]. apply bool_decide_eq_true in Hc. exact Hc.
  - exact Hcs.
Qed.

(** The cursor never runs further than one past [m_max], whatever is
    called. *)
Lemma call_cursor_bound bits p c :
  m_next (tracker p) ≤ m_max (tracker p) + 1 →
  m_next (tracker (call bits p c)) ≤ m_max (tracker (call bits p c)) + 1.
Proof.
  intros Hb. destruct c as [| id]; [| exact Hb].
  destruct (call_alloc_cases bits p)
    as [(Hle & ->) | [(c & rest & Hgt & Hq & ->) | (_ & _ & ->)]]; simpl.
  - pose proof (incr_le bits (m_next (tracker p))). lia.
  - exact Hb.
  - exact Hb.
Qed.

Lemma calls_cursor_bound bits cs p :
  m_next (tracker p) ≤ m_max (tracker p) + 1 →
  m_next (tracker (calls bits p cs)) ≤ m_max (tracker (calls bits p cs)) + 1.
Proof.
  unfold calls. revert p.
  induction cs as [| c cs IH]; intros p Hb; simpl; [exact Hb |].
  apply IH, call_cursor_bound, Hb.
Qed.

(** C3, as stated, fails: [free_channel] takes any id at any time.  On a
    tracker over [100, 100], releasing 100 twice after one allocation
    queues it twice, and the next two allocations both return 100: two live
    holders of one channel. *)
Lemma double_release_breaks_uniqueness :
  let p := calls 64 (Pool_new 100 100) [Alloc; Free 100; Free 100; Alloc; Alloc] in
  live p = [100; 100] ∧ ¬ NoDup (live p).
Proof.
  split; [reflexivity |].
  intros Hnodup. apply NoDup_cons in Hnodup as [Hnotin _].
  apply Hnotin. left.
Qed.

(** C3, amended: when [m_max] is below the largest channel value, so that
    the cursor cannot wrap, and every [free_channel] call releases an id
    that is live at that moment, the live results of [alloc_channel] are
    pairwise different after any sequence of calls. *)
Theorem live_channels_unique (bits : N) (min max : channel_t) (cs : list tracker_call) :
  max < CHANNEL_MAX bits →
  releases_live bits (Pool_new min max) cs = true →
  NoDup (live (calls bits (Pool_new min max) cs)).
Proof.
  intros Hmax Hok.
  pose proof (calls_pool_inv bits cs (Pool_new min max) Hmax (pool_inv_new min max) Hok)
    as (Hnodup & _).
  apply NoDup_app in Hnodup as (Hlive & _). exact Hlive.
Qed.

(** Three sessions come and go on a tracker over [100, 101]. *)
Lemma live_channels_unique_witness :
  NoDup (live (calls 64 (Pool_new 100 101)
                 [Alloc; Alloc; Free 100; Alloc; Alloc; Free 101; Alloc])).
Proof.
  apply (live_channels_unique 64 100 101); vm_compute; reflexivity.
Defined.

(** ** The cursor at the largest channel value *)

Lemma calls_snoc bits p cs c :
  calls bits p (cs ++ [c]) = call bits (calls bits p cs) c.
Proof. unfold calls. rewrite foldl_app. reflexivity. Qed.

(** With [m_max] at the largest channel value the test [m_next <= m_max]
    never fails: [n] allocations hand out the [n] successors of the cursor
    modulo [2 ^ bits], and nothing else. *)
Lemma allocs_at_top bits n p :
  m_max (tracker p) = CHANNEL_MAX bits →
  m_next (tracker p) < 2 ^ bits →
  let p' := calls bits p (replicate n Alloc) in
  m_next (tracker p') = (m_next (tracker p) + N.of_nat n) mod 2 ^ bits
  ∧ live p' =
      rev (map (λ i, (m_next (tracker p) + N.of_nat i) mod 2 ^ bits) (seq 0 n))
      ++ live p.
Proof.
  intros Hmax Hnext.
  induction n as [| n IH].
  - simpl. split; [| reflexivity].
    rewrite N.add_0_r, N.mod_small; [reflexivity | exact Hnext].
  - rewrite replicate_S_end. cbv zeta. rewrite calls_snoc.
    cbv zeta in IH. destruct IH as [IHnext IHlive].
    set (q := calls bits p (replicate n Alloc)) in *.
    assert (Hqmax : m_max (tracker q) = CHANNEL_MAX bits)
      by (unfold q; rewrite calls_m_max; exact Hmax).
    assert (Hpow : 0 < 2 ^ bits) by (apply N.neq_0_lt_0, N.pow_nonzero; lia).
    assert (Hqnext : m_next (tracker q) ≤ m_max (tracker q)).
    { rewrite Hqmax, IHnext. unfold CHANNEL_MAX.
      pose proof (N.mod_upper_bound (m_next (tracker p) + N.of_nat n) (2 ^ bits)).
      lia. }
    destruct (call_alloc_cases bits q)
      as [(_ & ->) | [(c & rest & Hgt & _) | (Hgt & _)]]; [| lia | lia].
    cbn [tracker live m_next]. split.
    + unfold incr. rewrite IHnext.
      rewrite N.Div0.add_mod_idemp_l. f_equal. lia.
    + rewrite seq_S, map_app, rev_app_distr. cbn [map rev app].
      rewrite IHnext, IHlive. reflexivity.
Qed.

(** The bound on [m_max] in the uniqueness statement is needed.  With
    [m_max] at the largest channel value, a run of allocations and no
    release at all walks the cursor once around the channel type and hands
    out the first id a second time while it is still live. *)
Theorem full_range_reissues (bits : N) (min : channel_t) :
  min ≤ CHANNEL_MAX bits →
  ¬ NoDup (live (calls bits (Pool_new min (CHANNEL_MAX bits))
                   (replicate (S (N.to_nat (2 ^ bits))) Alloc))).
Proof.
  intros Hmin Hnodup.
  assert (Hpow : 0 < 2 ^ bits) by (apply N.neq_0_lt_0, N.pow_nonzero; lia).
  destruct (allocs_at_top bits (S (N.to_nat (2 ^ bits)))
              (Pool_new min (CHANNEL_MAX bits)) eq_refl) as [_ Hlive].
  { simpl. unfold CHANNEL_MAX in Hmin. lia. }
  rewrite Hlive in Hnodup. clear Hlive.
  cbn [Pool_new live tracker m_next ChannelTracker_new] in Hnodup.
  rewrite app_nil_r in Hnodup.
  apply NoDup_ListNoDup, NoDup_rev in Hnodup. rewrite rev_involutive in Hnodup.
  apply NoDup_ListNoDup in Hnodup.
  rewrite <- cons_seq in Hnodup. cbn [map] in Hnodup.
  apply NoDup_cons in Hnodup as [Hnotin _]. apply Hnotin.
  apply list_elem_of_fmap. exists (N.to_nat (2 ^ bits)). split.
  - rewrite N2Nat.id. cbn [N.of_nat]. rewrite N.add_0_r.
    rewrite <- (N.mul_1_l (2 ^ bits)) at 2. rewrite N.Div0.mod_add. reflexivity.
  - apply elem_of_seq. lia.
Qed.

(** The 64-bit build with the range starting at 1000000. *)
Lemma full_range_reissues_witness :
  ¬ NoDup (live (calls 64 (Pool_new 1000000 (CHANNEL_MAX 64))
                   (replicate (S (N.to_nat (2 ^ 64))) Alloc))).
Proof.
  apply (full_range_reissues 64 1000000).
  unfold CHANNEL_MAX. lia.
Defined.

(** ** The queue under unchecked releases *)

Lemma calls_app bits p cs1 cs2 :
  calls bits p (cs1 ++ cs2) = calls bits (calls bits p cs1) cs2.
Proof. unfold calls. apply foldl_app. Qed.

Lemma releases_live_app bits cs1 cs2 p :
  releases_live bits p (cs1 ++ cs2)
  = releases_live bits p cs1 && releases_live bits (calls bits p cs1) cs2.
Proof.
  revert p. induction cs1 as [| c cs1 IH]; intros p; [reflexivity |].
  simpl. rewrite IH, andb_assoc. reflexivity.
Qed.

Lemma releases_live_allocs bits n p :
  releases_live bits p (replicate n Alloc) = true.
Proof.
  revert p. induction n as [| n IH]; intros p; simpl; [reflexivity | apply IH].
Qed.

(** Allocations never touch the queue while the cursor stays within the
    range, as it always does with [m_max] at the largest channel value. *)
Lemma allocs_at_top_queue bits n p :
  m_max (tracker p) = CHANNEL_MAX bits →
  m_next (tracker p) < 2 ^ bits →
  m_unused_channels (tracker (calls bits p (replicate n Alloc)))
  = m_unused_channels (tracker p).
Proof.
  intros Hmax Hnext.
  induction n as [| n IH]; [reflexivity |].
  rewrite replicate_S_end, calls_snoc.
  destruct (allocs_at_top bits n p Hmax Hnext) as [Hcursor _].
  set (q := calls bits p (replicate n Alloc)) in *.
  assert (Hqmax : m_max (tracker q) = CHANNEL_MAX bits)
    by (unfold q; rewrite calls_m_max; exact Hmax).
  assert (Hpow : 0 < 2 ^ bits) by (apply N.neq_0_lt_0, N.pow_nonzero; lia).
  assert (Hle : m_next (tracker q) ≤ m_max (tracker q)).
  { rewrite Hqmax, Hcursor. unfold CHANNEL_MAX.
    pose proof (N.mod_upper_bound (m_next (tracker p) + N.of_nat n) (2 ^ bits)).
    lia. }
  destruct (call_alloc_cases bits q)
    as [(_ & ->) | [(c & rest & Hgt & _) | (Hgt & _)]]; [| lia | lia].
  exact IH.
Qed.

(** With [m_max] at the largest channel value the contract of
    [free_channel] does not keep a queued id from being handed out fresh:
    the first id is allocated and released, and the cursor, wrapped to 0,
    comes back to it while it waits in the queue. *)
Lemma wrapped_cursor_reaches_queued_id bits :
  let top := CHANNEL_MAX bits in
  let cs := [Alloc; Free top] ++ replicate (N.to_nat (2 ^ bits)) Alloc in
  let p := calls bits (Pool_new top top) cs in
  releases_live bits (Pool_new top top) cs = true
  ∧ top ∈ m_unused_channels (tracker p)
  ∧ top ∈ live p.
Proof.
  intros top cs p.
  assert (Hpow : 0 < 2 ^ bits) by (apply N.neq_0_lt_0, N.pow_nonzero; lia).
  assert (Hwrap : incr bits top = 0).
  { unfold incr, top, CHANNEL_MAX.
    replace (2 ^ bits - 1 + 1) with (2 ^ bits) by lia. apply N.Div0.mod_same. }
  assert (Hp1 : calls bits (Pool_new top top) [Alloc; Free top]
                = {| tracker := {| m_next := 0; m_max := top;
                                   m_unused_channels := [top] |};
                     live := []; issued := [top] |}).
  { unfold calls. cbn [foldl].
    destruct (call_alloc_cases bits (Pool_new top top))
      as [(_ & ->) | [(c & rest & Hgt & _) | (Hgt & _)]];
      [| simpl in Hgt; lia | simpl in Hgt; lia].
    cbn. rewrite Hwrap. rewrite decide_True by reflexivity. reflexivity. }
  set (p1 := {| tracker := {| m_next := 0; m_max := top;
                              m_unused_channels := [top] |};
                live := []; issued := [top] |}) in *.
  split; [| split].
  - unfold cs. rewrite releases_live_app, releases_live_allocs, andb_true_r.
    cbn [releases_live]. rewrite andb_true_r.
    destruct (call_alloc_cases bits (Pool_new top top))
      as [(_ & ->) | [(c & rest & Hgt & _) | (Hgt & _)]];
      [| simpl in Hgt; lia | simpl in Hgt; lia].
    cbn [live]. apply bool_decide_eq_true. left.
  - unfold p, cs. rewrite calls_app, Hp1.
    rewrite (allocs_at_top_queue bits _ p1 eq_refl) by (simpl; exact Hpow).
    left.
  - unfold p, cs. rewrite calls_app, Hp1.
    destruct (allocs_at_top bits (N.to_nat (2 ^ bits)) p1 eq_refl) as [_ ->];
      [simpl; exact Hpow |].
    cbn [p1 live tracker m_next]. rewrite app_nil_r.
    apply list_elem_of_In. rewrite <- in_rev. apply list_elem_of_In, list_elem_of_fmap.
    exists (N.to_nat top). split.
    + rewrite N2Nat.id, N.add_0_l. symmetry. apply N.mod_small.
      unfold top, CHANNEL_MAX. lia.
    + apply elem_of_seq. unfold top, CHANNEL_MAX. lia.
Qed.

(** The queue holds only ids that were handed out, as long as nothing
    else is released. *)
Lemma call_queue_issued bits p c :
  (∀ id, id ∈ m_unused_channels (tracker p) → id ∈ issued p) →
  match c with Alloc => True | Free id => id ∈ issued p end →
  ∀ id, id ∈ m_unused_channels (tracker (call bits p c)) → id ∈ issued (call bits p c).
Proof.
  intros Hinv Hc id. destruct c as [| released].
  - destruct (call_alloc_cases bits p)
      as [(_ & ->) | [(c & rest & _ & Hq & ->) | (_ & _ & ->)]]; simpl.
    + intros Hin. right. apply Hinv, Hin.
    + intros Hin. right. apply Hinv. rewrite Hq. right. exact Hin.
    + apply Hinv.
  - simpl. intros Hin. apply elem_of_app in Hin as [Hin | Hin].
    + apply Hinv, Hin.
    + apply list_elem_of_singleton in Hin as ->. exact Hc.
Qed.

Lemma calls_queue_issued bits cs p :
  (∀ id, id ∈ m_unused_channels (tracker p) → id ∈ issued p) →
  releases_issued bits p cs = true →
  ∀ id, id ∈ m_unused_channels (tracker (calls bits p cs)) → id ∈ issued (calls bits p cs).
Proof.
  unfold calls. revert p.
  induction cs as [| c cs IH]; intros p Hinv Hok; simpl; [exact Hinv |].
  simpl in Hok. apply andb_true_iff in Hok as [Hc Hcs].
  apply IH; [| exact Hcs].
  apply call_queue_issued; [exact Hinv |].
  destruct c; [exact I |]. apply bool_decide_eq_true in Hc. exact Hc.
Qed.

(** C4, as stated, fails in three ways.  An id that was never handed out
    is queued: on a fresh tracker over [100, 102], [free_channel(5)] queues
    5.  Releasing only ids that were handed out does not keep a queued id
    from being live: over [100, 100], after 100 is released twice and
    allocated once again it is live and still queued.  And with [m_max] at
    the largest channel value even callers that release live ids only meet
    a queued id that is live: the cursor wraps and hands out fresh the id
    that waits in the queue. *)
Lemma unchecked_release_breaks_queue_invariant :
  (let p := calls 64 (Pool_new 100 102) [Free 5] in
   ¬ (∀ id, id ∈ m_unused_channels (tracker p) → id ∈ issued p))
  ∧ (let cs := [Alloc; Free 100; Free 100; Alloc] in
     let p := calls 64 (Pool_new 100 100) cs in
     releases_issued 64 (Pool_new 100 100) cs = true
     ∧ ¬ (∀ id, id ∈ m_unused_channels (tracker p) → id ∉ live p))
  ∧ (let top := CHANNEL_MAX 64 in
     let cs := [Alloc; Free top] ++ replicate (N.to_nat (2 ^ 64)) Alloc in
     let p := calls 64 (Pool_new top top) cs in
     releases_live 64 (Pool_new top top) cs = true
     ∧ ¬ (∀ id, id ∈ m_unused_channels (tracker p) → id ∉ live p)).
Proof.
  split; [| split].
  - intros p Hall.
    assert (Hin : 5 ∈ issued p) by (apply Hall; left).
    inversion Hin.
  - intros cs p. split; [reflexivity |].
    intros Hall. apply (Hall 100); left.
  - destruct (wrapped_cursor_reaches_queued_id 64) as (Hok & Hqueued & Hlive).
    split; [exact Hok |].
    intros Hall. exact (Hall _ Hqueued Hlive).
Qed.

(** C4, amended: from a tracker constructed with [min <= max], the cursor
    is at most [max + 1] after any sequence of calls.  When every
    [free_channel] call is given an id that [alloc_channel] handed out
    before, the queue holds only ids that were handed out.  When every
    [free_channel] call is given an id that is live at that moment and
    [max] is below the largest channel value, no queued id is live. *)
Theorem tracker_invariant (bits : N) (min max : channel_t) (cs : list tracker_call) :
  let p := calls bits (Pool_new min max) cs in
  (min ≤ max → m_next (tracker p) ≤ max + 1)
  ∧ (releases_issued bits (Pool_new min max) cs = true →
     ∀ id, id ∈ m_unused_channels (tracker p) → id ∈ issued p)
  ∧ (max < CHANNEL_MAX bits →
     releases_live bits (Pool_new min max) cs = true →
     ∀ id, id ∈ m_unused_channels (tracker p) → id ∉ live p).
Proof.
  intros p. split; [| split].
  - intros Hrange.
    pose proof (calls_cursor_bound bits cs (Pool_new min max)) as Hb.
    rewrite calls_m_max in Hb. apply Hb. simpl. lia.
  - intros Hok. apply calls_queue_issued; [| exact Hok].
    intros id Hin. inversion Hin.
  - intros Hmax Hok id Hin Hlive.
    pose proof (calls_pool_inv bits cs (Pool_new min max) Hmax (pool_inv_new min max) Hok)
      as (Hnodup & _).
    apply NoDup_app in Hnodup as (_ & Hdisjoint & _).
    exact (Hdisjoint id Hlive Hin).
Qed.

(** A tracker over [100, 101] after a run that ends with 100 queued and
    101 live. *)
Lemma tracker_invariant_witness :
  let p := calls 64 (Pool_new 100 101) [Alloc; Alloc; Free 100] in
  m_unused_channels (tracker p) = [100]
  ∧ m_next (tracker p) ≤ 101 + 1
  ∧ (∀ id, id ∈ m_unused_channels (tracker p) → id ∈ issued p)
  ∧ (∀ id, id ∈ m_unused_channels (tracker p) → id ∉ live p).
Proof.
  pose proof (tracker_invariant 64 100 101 [Alloc; Alloc; Free 100])
    as (Hcursor & Hissued & Hlive).
  split; [reflexivity |]. split; [| split].
  - apply Hcursor. vm_compute. discriminate.
  - apply Hissued. vm_compute. reflexivity.
  - apply Hlive; vm_compute; reflexivity.
Defined.

(** ** The value 0 *)

Lemma nonzero_inv_new min max :
  range_excludes_zero min max → nonzero_inv (Pool_new min max).
Proof.
  intros Hrange. repeat split; simpl.
  - intros Hle. specialize (Hrange min). lia.
  - intros Hin. inversion Hin.
  - intros Hin. inversion Hin.
Qed.

Lemma call_nonzero_inv bits p c :
  m_max (tracker p) < CHANNEL_MAX bits →
  nonzero_inv p →
  match c with Alloc => True | Free id => id ∈ issued p end →
  nonzero_inv (call bits p c).
Proof.
  intros Hmax (Hnext & Hqueue & Hissued) Hc.
  destruct c as [| id].
  - destruct (call_alloc_cases bits p)
      as [(Hle & ->) | [(c & rest & Hgt & Hq & ->) | (_ & _ & ->)]].
    + rewrite incr_no_wrap by lia. repeat split; simpl.
      * lia.
      * exact Hqueue.
      * intros Hin. apply elem_of_cons in Hin as [H0 | Hin]; [| tauto].
        specialize (Hnext Hle). lia.
    + rewrite Hq in Hqueue. repeat split; simpl.
      * exact Hnext.
      * intros Hin. apply Hqueue. right. exact Hin.
      * intros Hin. apply elem_of_cons in Hin as [<- | Hin]; [| tauto].
        apply Hqueue. left.
    + repeat split; assumption.
  - repeat split; simpl.
    + exact Hnext.
    + intros Hin. apply elem_of_app in Hin as [Hin | Hin]; [tauto |].
      apply list_elem_of_singleton in Hin as <-. tauto.
    + exact Hissued.
Qed.

Lemma calls_nonzero_inv bits cs p :
  m_max (tracker p) < CHANNEL_MAX bits →
  nonzero_inv p →
  releases_issued bits p cs = true →
  nonzero_inv (calls bits p cs).
Proof.
  unfold calls. revert p.
  induction cs as [| c cs IH]; intros p Hmax Hinv Hok; simpl; [exact Hinv |].
  simpl in Hok. apply andb_true_iff in Hok as [Hc Hcs].
  apply IH.
  - rewrite call_m_max. exact Hmax.
  - apply call_nonzero_inv; [exact Hmax | exact Hinv |].
    destruct c; [exact I |]. apply bool_decide_eq_true in Hc. exact Hc.
  - exact Hcs.
Qed.

(** Short of the largest channel value, 0 is returned by the final
    [return 0] and by nothing else: with a range that leaves out 0 and
    [m_max] below the largest channel value, after calls that release only
    ids handed out before, [alloc_channel] returns 0 exactly when the
    tracker is exhausted. *)
Lemma zero_means_exhausted (bits : N) (min max : channel_t) (cs : list tracker_call) :
  range_excludes_zero min max →
  max < CHANNEL_MAX bits →
  releases_issued bits (Pool_new min max) cs = true →
  let p := calls bits (Pool_new min max) cs in
  fst (alloc_channel bits (tracker p)) = INVALID_CHANNEL
  ↔ exhausted (tracker p) = true.
Proof.
  intros Hrange Hmax Hok p. unfold INVALID_CHANNEL.
  pose proof (calls_nonzero_inv bits cs (Pool_new min max) Hmax
                (nonzero_inv_new min max Hrange) Hok) as (Hnext & Hqueue & _).
  fold p in Hnext, Hqueue.
  rewrite exhausted_spec. unfold alloc_channel.
  destruct (N.leb_spec (m_next (tracker p)) (m_max (tracker p))) as [Hle | Hgt].
  - simpl. specialize (Hnext Hle). split; [lia |]. intros [Hgt _]. lia.
  - destruct (m_unused_channels (tracker p)) as [| c rest]; simpl.
    + split; [intros _; split; [exact Hgt | reflexivity] | reflexivity].
    + split.
      * intros ->. exfalso. apply Hqueue. left.
      * intros [_ Hnil]. discriminate Hnil.
Qed.

(** A used-up tracker over [100, 101] with both ids live, and the same
    tracker after 100 came back. *)
Lemma zero_means_exhausted_witness :
  (fst (alloc_channel 64 (tracker (calls 64 (Pool_new 100 101) [Alloc; Alloc])))
   = INVALID_CHANNEL
   ↔ exhausted (tracker (calls 64 (Pool_new 100 101) [Alloc; Alloc])) = true)
  ∧ exhausted (tracker (calls 64 (Pool_new 100 101) [Alloc; Alloc])) = true
  ∧ exhausted (tracker (calls 64 (Pool_new 100 101) [Alloc; Alloc; Free 100])) = false.
Proof.
  split; [| split; reflexivity].
  apply (zero_means_exhausted 64 100 101 [Alloc; Alloc]).
  - intros c Hc. lia.
  - vm_compute. reflexivity.
  - vm_compute. reflexivity.
Defined.

(** C10, at the largest channel value: a 64-bit tracker over the one-id
    range [2^64 - 1, 2^64 - 1], which leaves out 0.  The first allocation
    returns that id and the increment wraps the cursor to 0.  After the id
    is released, [alloc_channel] finds the cursor 0 below [m_max], returns
    0 from the fresh-id path although the queue holds the released id, and
    the call after that returns 1, outside the range. *)
Lemma wrapped_cursor_returns_zero :
  let top := CHANNEL_MAX 64 in
  let p := calls 64 (Pool_new top top) [Alloc; Free top] in
  top = 18446744073709551615
  ∧ range_excludes_zero top top
  ∧ releases_issued 64 (Pool_new top top) [Alloc; Free top] = true
  ∧ tracker p = {| m_next := 0; m_max := top; m_unused_channels := [top] |}
  ∧ exhausted (tracker p) = false
  ∧ alloc_channel 64 (tracker p)
    = (0, {| m_next := 1; m_max := top; m_unused_channels := [top] |})
  ∧ fst (alloc_channel 64 (snd (alloc_channel 64 (tracker p)))) = 1.
Proof.
  intros top p.
  split; [reflexivity |]. split.
  - intros c Hc. change top with 18446744073709551615 in Hc. lia.
  - repeat split.
Qed.

(** ** The range *)

Lemma elem_of_count_up (x first : channel_t) (n : nat) :
  x ∈ count_up first n ↔ first ≤ x < first + N.of_nat n.
Proof.
  revert first. induction n as [| n IH]; intros first; simpl count_up.
  - split; [intros Hin; inversion Hin | lia].
  - rewrite elem_of_cons, IH. lia.
Qed.

Lemma count_up_snoc (first : channel_t) (n : nat) :
  count_up first (S n) = count_up first n ++ [first + N.of_nat n].
Proof.
  revert first. induction n as [| n IH]; intros first.
  - simpl. rewrite N.add_0_r. reflexivity.
  - change (count_up first (S (S n))) with (first :: count_up (first + 1) (S n)).
    rewrite IH. simpl. do 3 f_equal. lia.
Qed.

Lemma length_count_up (first : channel_t) (n : nat) : length (count_up first n) = n.
Proof.
  revert first. induction n as [| n IH]; intros first; simpl; [| rewrite IH]; reflexivity.
Qed.

Lemma NoDup_count_up (first : channel_t) (n : nat) : NoDup (count_up first n).
Proof.
  revert first. induction n as [| n IH]; intros first; simpl.
  - constructor.
  - constructor; [| apply IH]. rewrite elem_of_count_up. lia.
Qed.

Lemma range_inv_new min max : range_inv min (Pool_new min max).
Proof.
  repeat split; simpl.
  - lia.
  - right. reflexivity.
  - rewrite N.sub_diag. reflexivity.
Qed.

Lemma call_range_inv bits min p c :
  m_max (tracker p) < CHANNEL_MAX bits →
  range_inv min p →
  match c with Alloc => True | Free id => id ∈ live p end →
  range_inv min (call bits p c).
Proof.
  intros Hmax (Hmin & Hcursor & Hperm) Hc.
  destruct c as [| id].
  - destruct (call_alloc_cases bits p)
      as [(Hle & ->) | [(c & rest & Hgt & Hq & ->) | (_ & _ & ->)]].
    + rewrite incr_no_wrap by lia. repeat split; cbn [tracker live m_next m_max m_unused_channels].
      * lia.
      * left. lia.
      * replace (N.to_nat (m_next (tracker p) + 1 - min))
          with (S (N.to_nat (m_next (tracker p) - min))) by lia.
        rewrite count_up_snoc, <- Hperm.
        replace (min + N.of_nat (N.to_nat (m_next (tracker p) - min)))
          with (m_next (tracker p)) by lia.
        apply Permutation_cons_append.
    + repeat split; cbn [tracker live m_next m_max m_unused_channels].
      * exact Hmin.
      * exact Hcursor.
      * rewrite <- Hperm, Hq. apply Permutation_middle.
    + repeat split; assumption.
  - repeat split.
    + exact Hmin.
    + exact Hcursor.
    + rewrite (free_live_perm bits p id Hc). exact Hperm.
Qed.

Lemma calls_range_inv bits min cs p :
  m_max (tracker p) < CHANNEL_MAX bits →
  range_inv min p →
  releases_live bits p cs = true →
  range_inv min (calls bits p cs).
Proof.
  unfold calls. revert p.
  induction cs as [| c cs IH]; intros p Hmax Hinv Hok; simpl; [exact Hinv |].
  simpl in Hok. apply andb_true_iff in Hok as [Hc Hcs].
  apply IH.
  - rewrite call_m_max. exact Hmax.
  - apply call_range_inv; [exact Hmax | exact Hinv |].
    destruct c; [exact I |]. apply bool_decide_eq_true in Hc. exact Hc.
  - exact Hcs.
Qed.

(** Everything held or queued lies in the range. *)
Lemma range_inv_bounds min p id :
  range_inv min p →
  id ∈ live p ++ m_unused_channels (tracker p) →
  min ≤ id ≤ m_max (tracker p).
Proof.
  intros (Hmin & Hcursor & Hperm) Hin.
  rewrite Hperm in Hin. apply elem_of_count_up in Hin.
  destruct Hcursor as [Hle | Heq]; [lia |].
  rewrite Heq, N.sub_diag in Hin. simpl in Hin. lia.
Qed.

(** No id is lost and none is doubled: with [m_max] below the largest
    channel value and callers that release only live ids, the ids held
    together with the ids queued are exactly the ids from [min] up to the
    cursor, in some order; so their numbers add up to the distance the
    cursor has moved, and never more ids are live than the range holds. *)
Theorem accounting (bits : N) (min max : channel_t) (cs : list tracker_call) :
  max < CHANNEL_MAX bits →
  releases_live bits (Pool_new min max) cs = true →
  let p := calls bits (Pool_new min max) cs in
  live p ++ m_unused_channels (tracker p)
  ≡ₚ count_up min (N.to_nat (m_next (tracker p) - min))
  ∧ N.of_nat (length (live p)) + N.of_nat (length (m_unused_channels (tracker p)))
    = m_next (tracker p) - min
  ∧ N.of_nat (length (live p)) ≤ max + 1 - min.
Proof.
  intros Hmax Hok p.
  pose proof (calls_range_inv bits min cs (Pool_new min max) Hmax
                (range_inv_new min max) Hok) as (Hmin & Hcursor & Hperm).
  fold p in Hmin, Hcursor, Hperm.
  assert (Hm : m_max (tracker p) = max) by apply calls_m_max.
  assert (Hlen : N.of_nat (length (live p))
                 + N.of_nat (length (m_unused_channels (tracker p)))
                 = m_next (tracker p) - min).
  { apply Permutation_length in Hperm.
    rewrite length_app, length_count_up in Hperm. lia. }
  split; [exact Hperm |]. split; [exact Hlen |].
  destruct Hcursor as [Hle | Heq]; lia.
Qed.

(** Under the same conditions every live id lies in [[min, max]], and so
    does the result of the next [alloc_channel] unless the tracker is
    exhausted. *)
Theorem allocations_in_range (bits : N) (min max : channel_t) (cs : list tracker_call) :
  max < CHANNEL_MAX bits →
  releases_live bits (Pool_new min max) cs = true →
  let p := calls bits (Pool_new min max) cs in
  (∀ id, id ∈ live p → min ≤ id ≤ max)
  ∧ (exhausted (tracker p) = false →
     min ≤ fst (alloc_channel bits (tracker p)) ≤ max).
Proof.
  intros Hmax Hok p.
  pose proof (calls_range_inv bits min cs (Pool_new min max) Hmax
                (range_inv_new min max) Hok) as Hinv.
  fold p in Hinv.
  assert (Hm : m_max (tracker p) = max) by apply calls_m_max.
  split.
  - intros id Hin. rewrite <- Hm. apply (range_inv_bounds min p id Hinv).
    apply elem_of_app. left. exact Hin.
  - intros Hnot.
    destruct (call_alloc_cases bits p)
      as [(Hle & _) | [(c & rest & Hgt & Hq & _) | (Hgt & Hq & _)]].
    + rewrite alloc_channel_fresh by exact Hle. simpl.
      destruct Hinv as (Hmin & _). lia.
    + rewrite (alloc_channel_reuse bits _ c rest) by assumption. simpl.
      rewrite <- Hm. apply (range_inv_bounds min p c Hinv).
      apply elem_of_app. right. rewrite Hq. left.
    + assert (exhausted (tracker p) = true) by (apply exhausted_spec; split; assumption).
      congruence.
Qed.

(** Under the same conditions [alloc_channel] runs into its final
    [return 0] exactly when every id of the range is live: it never
    reports exhaustion while an id of the range is free, and never finds
    one when all are taken. *)
Theorem exhausted_iff_all_live (bits : N) (min max : channel_t) (cs : list tracker_call) :
  max < CHANNEL_MAX bits →
  releases_live bits (Pool_new min max) cs = true →
  let p := calls bits (Pool_new min max) cs in
  exhausted (tracker p) = true ↔ ∀ id, min ≤ id ≤ max → id ∈ live p.
Proof.
  intros Hmax Hok p.
  pose proof (calls_range_inv bits min cs (Pool_new min max) Hmax
                (range_inv_new min max) Hok) as (Hmin & Hcursor & Hperm).
  fold p in Hmin, Hcursor, Hperm.
  assert (Hm : m_max (tracker p) = max) by apply calls_m_max.
  rewrite exhausted_spec, Hm. split.
  - intros [Hgt Hq] id Hid.
    rewrite Hq, app_nil_r in Hperm. rewrite Hperm.
    apply elem_of_count_up. lia.
  - intros Hall.
    assert (Hsub : count_up min (N.to_nat (max + 1 - min)) ⊆+ live p).
    { apply NoDup_submseteq; [apply NoDup_count_up |].
      intros id Hin. apply elem_of_count_up in Hin. apply Hall. lia. }
    apply submseteq_length in Hsub. rewrite length_count_up in Hsub.
    apply Permutation_length in Hperm.
    rewrite length_app, length_count_up in Hperm.
    assert (Hq : length (m_unused_channels (tracker p)) = 0%nat)
      by (destruct Hcursor; lia).
    split; [destruct Hcursor; lia |].
    destruct (m_unused_channels (tracker p)); [reflexivity | discriminate Hq].
Qed.

(** ** Fresh ids in order *)

Lemma alloc_many_app bits n m ct :
  alloc_many bits (n + m) ct
  = (fst (alloc_many bits n ct) ++ fst (alloc_many bits m (snd (alloc_many bits n ct))),
     snd (alloc_many bits m (snd (alloc_many bits n ct)))).
Proof.
  revert ct. induction n as [| n IH]; intros ct.
  - simpl. destruct (alloc_many bits m ct); reflexivity.
  - cbn [Nat.add alloc_many].
    destruct (alloc_channel bits ct) as [c ct1].
    rewrite IH.
    destruct (alloc_many bits n ct1) as [cs ct2]. reflexivity.
Qed.

Lemma alloc_many_fresh bits n next max queue :
  max < CHANNEL_MAX bits →
  next + N.of_nat n ≤ max + 1 →
  alloc_many bits n {| m_next := next; m_max := max; m_unused_channels := queue |}
  = (count_up next n,
     {| m_next := next + N.of_nat n; m_max := max; m_unused_channels := queue |}).
Proof.
  intros Hmax. revert next.
  induction n as [| n IH]; intros next Hn.
  - simpl. rewrite N.add_0_r. reflexivity.
  - cbn [alloc_many count_up].
    rewrite alloc_channel_fresh by (simpl; lia).
    cbn [m_next m_max m_unused_channels].
    rewrite incr_no_wrap by lia.
    rewrite IH by lia.
    replace (next + 1 + N.of_nat n) with (next + N.of_nat (S n)) by lia.
    reflexivity.
Qed.

(** A new tracker over [[min, max]], [max] below the largest channel
    value: as long as the range lasts the allocations return [min],
    [min + 1], ... without a gap, and allocating once more than the range
    holds returns all of [min .. max] in order, then 0, and leaves the
    cursor one past [max]. *)
Theorem fresh_ids_in_order (bits : N) (min max : channel_t) :
  max < CHANNEL_MAX bits →
  min ≤ max →
  (∀ n, min + N.of_nat n ≤ max + 1 →
     fst (alloc_many bits n (ChannelTracker_new min max)) = count_up min n)
  ∧ alloc_many bits (N.to_nat (max + 1 - min) + 1) (ChannelTracker_new min max)
    = (count_up min (N.to_nat (max + 1 - min)) ++ [0],
       {| m_next := max + 1; m_max := max; m_unused_channels := [] |}).
Proof.
  intros Hmax Hrange. split.
  - intros n Hn. unfold ChannelTracker_new.
    rewrite alloc_many_fresh by assumption. reflexivity.
  - rewrite alloc_many_app. unfold ChannelTracker_new.
    rewrite alloc_many_fresh by (try assumption; lia).
    cbn [fst snd alloc_many].
    replace (min + N.of_nat (N.to_nat (max + 1 - min))) with (max + 1) by lia.
    rewrite alloc_channel_exhausted by (simpl; first [lia | reflexivity]).
    reflexivity.
Qed.

(** The range [1000, 1004] on a 64-bit tracker. *)
Lemma fresh_ids_in_order_witness :
  fst (alloc_many 64 3 (ChannelTracker_new 1000 1004)) = [1000; 1001; 1002]
  ∧ fst (alloc_many 64 (N.to_nat (1004 + 1 - 1000) + 1) (ChannelTracker_new 1000 1004))
    = [1000; 1001; 1002; 1003; 1004; 0].
Proof.
  pose proof (fresh_ids_in_order 64 1000 1004
                ltac:(vm_compute; reflexivity) ltac:(vm_compute; discriminate))
    as [Hprefix Hall].
  split.
  - apply (Hprefix 3%nat). vm_compute. discriminate.
  - rewrite Hall. reflexivity.
Defined.

(** The pool's tracker is the tracker run on its own. *)
Lemma tracker_run_calls bits cs p :
  tracker (calls bits p cs) = tracker_run bits (tracker p) cs.
Proof.
  unfold calls, tracker_run. revert p.
  induction cs as [| c cs IH]; intros p; simpl; [reflexivity |].
  rewrite IH. f_equal. destruct c as [| id]; [| reflexivity].
  unfold call. destruct (alloc_channel bits (tracker p)) as [ch ct'].
  destruct (exhausted (tracker p)); reflexivity.
Qed.

(** Three ids handed out, one of them back in the queue. *)
Lemma accounting_witness :
  let p := calls 64 (Pool_new 100 102) [Alloc; Alloc; Free 100; Alloc] in
  live p ++ m_unused_channels (tracker p) ≡ₚ [100; 101; 102]
  ∧ N.of_nat (length (live p)) ≤ 102 + 1 - 100.
Proof.
  pose proof (accounting 64 100 102 [Alloc; Alloc; Free 100; Alloc]
                ltac:(vm_compute; reflexivity) ltac:(vm_compute; reflexivity))
    as (Hperm & _ & Hcap).
  split; [exact Hperm | exact Hcap].
Defined.

(** The same run: the next result is the queued id 100. *)
Lemma allocations_in_range_witness :
  let p := calls 64 (Pool_new 100 102) [Alloc; Alloc; Free 100; Alloc] in
  (∀ id, id ∈ live p → 100 ≤ id ≤ 102)
  ∧ 100 ≤ fst (alloc_channel 64 (tracker p)) ≤ 102.
Proof.
  pose proof (allocations_in_range 64 100 102 [Alloc; Alloc; Free 100; Alloc]
                ltac:(vm_compute; reflexivity) ltac:(vm_compute; reflexivity))
    as (Hlive & Hnext).
  split; [exact Hlive | apply Hnext; reflexivity].
Defined.

(** Both ids of [100, 101] are live again after one was reused. *)
Lemma exhausted_iff_all_live_witness :
  let p := calls 64 (Pool_new 100 101) [Alloc; Alloc; Free 100; Alloc] in
  exhausted (tracker p) = true ∧ ∀ id, 100 ≤ id ≤ 101 → id ∈ live p.
Proof.
  pose proof (exhausted_iff_all_live 64 100 101 [Alloc; Alloc; Free 100; Alloc]
                ltac:(vm_compute; reflexivity) ltac:(vm_compute; reflexivity))
    as [Hfull _].
  split; [reflexivity | apply Hfull; reflexivity].
Defined.

(** * Properties of the agent *)

Section AgentFacts.

Context {ConfigNode DCFile : Type}.
Variable legacy_hash : DCFile → N.
Variables default_workarounds no_sslv2 no_sslv3 no_tlsv1 : Z.
Variable channel_bits : N.

Local Abbreviation construct :=
  (ClientAgent_new (ConfigNode := ConfigNode)
     legacy_hash default_workarounds no_sslv2 no_sslv3 no_tlsv1).
Local Abbreviation Agent := (@ClientAgent ConfigNode).

Lemma empty_true (s : string) : empty s = true ↔ s = "".
Proof. unfold empty. apply bool_decide_eq_true. Qed.

Lemma empty_false (s : string) : empty s = false ↔ s ≠ "".
Proof. unfold empty. apply bool_decide_eq_false. Qed.

(** Whenever the constructor returns, the agent carries the resolved hash
    and the tracker over the configured range. *)
Lemma construct_returned env g_dcf roleconfig es (agent : Agent) :
  construct env g_dcf roleconfig = (es, Returned agent) →
  m_hash agent
  = (if 0 <? override_hash roleconfig
     then override_hash roleconfig
     else legacy_hash g_dcf)
  ∧ m_ct agent = ChannelTracker_new (min_channel roleconfig) (max_channel roleconfig)
  ∧ m_client_type agent = ca_client_type roleconfig
  ∧ m_clientconfig agent = ca_client_config roleconfig.
Proof.
  unfold ClientAgent_new.
  set (acc := if empty (tls_cert roleconfig) && empty (tls_key roleconfig)
              then _ else _).
  destruct acc as [es1 [a | status |]]; cbn; [| discriminate | discriminate].
  destruct (negb _); cbn; [discriminate |].
  intros [= _ <-]. cbn. repeat split.
Qed.

(** The handlers and the tracker calls always return to the event loop. *)
Lemma agent_call_run_returns (this : Agent) c :
  ∃ es this',
    agent_call_run channel_bits this c = (es, Returned this')
    ∧ m_hash this' = m_hash this.
Proof.
  destruct c as [sock | stream | | | channel]; cbn.
  - unfold handle_tcp. destruct (remote_endpoint sock); cbn; eauto.
  - unfold handle_ssl. destruct (remote_endpoint (next_layer stream)); cbn; eauto.
  - eauto.
  - eauto.
  - eauto.
Qed.

Lemma agent_calls_return cs (this : Agent) :
  ∃ es this',
    agent_calls channel_bits this cs = (es, Returned this')
    ∧ m_hash this' = m_hash this.
Proof.
  revert this. induction cs as [| c cs IH]; intros this.
  - cbn. eauto.
  - destruct (agent_call_run_returns this c) as (es1 & this1 & Hrun & Hhash1).
    destruct (IH this1) as (es2 & this2 & Hrest & Hhash2).
    cbn [agent_calls]. unfold mbind, M_bind, bind.
    rewrite Hrun, Hrest.
    exists (es1 ++ es2), this2. split; [reflexivity | congruence].
Qed.

(** C6: when the bind succeeds and the TLS settings are both empty, or
    both set with files that load, the constructor returns an agent whose
    hash is the configured override if that is greater than 0, whatever the
    DC file, and the legacy hash of the DC file if the override is 0.  For
    every agent the constructor returns: the hash is the override when that
    is greater than 0 and the legacy hash of the DC file when it is 0; two
    agents built with override 0 from the same DC file, in any surroundings
    and with any other settings, carry the same hash; and no handler and no
    tracker call changes the hash afterwards. *)
Theorem schema_hash_resolved_once env g_dcf (roleconfig : @RoleConfig ConfigNode) :
  (bind_error env (bind_addr roleconfig) 7198 = 0%Z →
   (tls_cert roleconfig = "" ∧ tls_key roleconfig = "")
   ∨ (tls_cert roleconfig ≠ "" ∧ tls_key roleconfig ≠ ""
      ∧ certificate_file_loads env (tls_cert roleconfig) = true
      ∧ private_key_file_loads env (tls_key roleconfig) = true
      ∧ (tls_chain roleconfig = ""
         ∨ certificate_chain_file_loads env (tls_chain roleconfig) = true)) →
   ∃ es agent,
     construct env g_dcf roleconfig = (es, Returned agent)
     ∧ (0 < override_hash roleconfig → m_hash agent = override_hash roleconfig)
     ∧ (override_hash roleconfig = 0 → m_hash agent = legacy_hash g_dcf))
  ∧ (∀ es (agent : Agent),
       construct env g_dcf roleconfig = (es, Returned agent) →
       (0 < override_hash roleconfig → m_hash agent = override_hash roleconfig)
       ∧ (override_hash roleconfig = 0 → m_hash agent = legacy_hash g_dcf)
       ∧ (∀ env' roleconfig' es' agent',
            construct env' g_dcf roleconfig' = (es', Returned agent') →
            override_hash roleconfig = 0 →
            override_hash roleconfig' = 0 →
            m_hash agent' = m_hash agent)
       ∧ (∀ cs, ∃ es' agent',
            agent_calls channel_bits agent cs = (es', Returned agent')
            ∧ m_hash agent' = m_hash agent)).
Proof.
  assert (Hresolved : ∀ es (agent : Agent),
            construct env g_dcf roleconfig = (es, Returned agent) →
            (0 < override_hash roleconfig → m_hash agent = override_hash roleconfig)
            ∧ (override_hash roleconfig = 0 → m_hash agent = legacy_hash g_dcf)).
  { intros es agent Hnew.
    destruct (construct_returned _ _ _ _ _ Hnew) as (Hhash & _). split.
    - intros Hpos. rewrite Hhash.
      destruct (N.ltb_spec 0 (override_hash roleconfig)); [reflexivity | lia].
    - intros Hzero. rewrite Hhash, Hzero. reflexivity. }
  split.
  - intros Hbind Htls.
    assert (Hreturns : ∃ es agent, construct env g_dcf roleconfig = (es, Returned agent)).
    { unfold ClientAgent_new, ssl_acceptor.
      destruct Htls as [[Hcert Hkey] | (Hcert & Hkey & Hcert_ok & Hkey_ok & Hchain)].
      - rewrite Hcert, Hkey, Hbind. cbn. eauto.
      - apply empty_false in Hcert. apply empty_false in Hkey.
        rewrite Hcert, Hkey, Hcert_ok, Hkey_ok, Hbind.
        destruct Hchain as [Hchain | Hchain].
        + rewrite Hchain. cbn. eauto.
        + rewrite Hchain. destruct (empty (tls_chain roleconfig)); cbn; eauto. }
    destruct Hreturns as (es & agent & Hnew).
    exists es, agent. split; [exact Hnew |]. apply (Hresolved es agent Hnew).
  - intros es agent Hnew.
    destruct (Hresolved es agent Hnew) as [Hoverride Hlegacy].
    split; [exact Hoverride |]. split; [exact Hlegacy |]. split.
    + intros env' roleconfig' es' agent' Hnew' Hzero Hzero'.
      destruct (construct_returned _ _ _ _ _ Hnew') as (Hhash' & _).
      rewrite Hhash', Hzero', (Hlegacy Hzero). reflexivity.
    + intros cs. apply agent_calls_return.
Qed.

(** C7: with exactly one of certificate and key file set, the constructor
    logs the fatal message about missing TLS material and leaves through
    [exit(1)]; that log line is all it did, so no acceptor was created and no
    bind was attempted. *)
Theorem tls_asymmetry_is_fatal env g_dcf (roleconfig : @RoleConfig ConfigNode) :
  (tls_cert roleconfig ≠ "" ∧ tls_key roleconfig = "")
  ∨ (tls_cert roleconfig = "" ∧ tls_key roleconfig ≠ "") →
  ∃ es status,
    construct env g_dcf roleconfig = (es, Exited status)
    ∧ es = [Log Fatal TlsMaterialMissing]
    ∧ status = 1%Z
    ∧ status ≠ 0%Z
    ∧ ∀ e, e ∈ es → is_bind e = false.
Proof.
  intros Hone.
  exists [Log Fatal TlsMaterialMissing], 1%Z.
  split; [| split; [reflexivity | split; [reflexivity | split; [lia |]]]].
  - unfold ClientAgent_new.
    destruct Hone as [[Hcert Hkey] | [Hcert Hkey]].
    + apply empty_false in Hcert. apply empty_true in Hkey.
      rewrite Hcert, Hkey. reflexivity.
    + apply empty_true in Hcert. apply empty_false in Hkey.
      rewrite Hcert, Hkey. reflexivity.
  - intros e He. apply list_elem_of_singleton in He as ->. reflexivity.
Qed.

(** What the constructor does when the bind succeeds.  With both TLS
    values empty it creates a [TcpAcceptor], binds it to the configured
    address with default port 7198 and starts it: these three events and no
    log line.  With both set, and files that load, it creates an
    [SslAcceptor] whose context carries the certificate, the key and the
    option bits chosen by the three version flags, and binds and starts
    that. *)
Theorem listener_selection env g_dcf (roleconfig : @RoleConfig ConfigNode) :
  bind_error env (bind_addr roleconfig) 7198 = 0%Z →
  (tls_cert roleconfig = "" → tls_key roleconfig = "" →
   ∃ es agent,
     construct env g_dcf roleconfig = (es, Returned agent)
     ∧ es = [NewAcceptor TcpAcceptor; Bind (bind_addr roleconfig) 7198; Start]
     ∧ m_net_acceptor agent = TcpAcceptor
     ∧ ∀ e, e ∈ es → is_log e = false)
  ∧ (tls_cert roleconfig ≠ "" → tls_key roleconfig ≠ "" →
     certificate_file_loads env (tls_cert roleconfig) = true →
     private_key_file_loads env (tls_key roleconfig) = true →
     tls_chain roleconfig = "" →
     ∃ ctx agent,
       construct env g_dcf roleconfig
       = ([NewAcceptor (SslAcceptor ctx); Bind (bind_addr roleconfig) 7198; Start],
          Returned agent)
       ∧ m_net_acceptor agent = SslAcceptor ctx
       ∧ ctx_certificate_file ctx = tls_cert roleconfig
       ∧ ctx_private_key_file ctx = tls_key roleconfig
       ∧ ctx_options ctx
         = Z.lor (Z.lor (Z.lor default_workarounds
                           (if sslv2_enabled roleconfig then 0 else no_sslv2))
                    (if sslv3_enabled roleconfig then 0 else no_sslv3))
             (if tlsv1_enabled roleconfig then 0 else no_tlsv1)).
Proof.
  intros Hbind. split.
  - intros Hcert Hkey. eexists. eexists.
    unfold ClientAgent_new. rewrite Hcert, Hkey, Hbind. cbn.
    split; [reflexivity |]. split; [reflexivity |]. split; [reflexivity |].
    intros e He. repeat (apply elem_of_cons in He as [-> | He]; [reflexivity |]).
    inversion He.
  - intros Hcert Hkey Hcert_ok Hkey_ok Hchain. eexists. eexists.
    unfold ClientAgent_new, ssl_acceptor.
    apply empty_false in Hcert. apply empty_false in Hkey.
    rewrite Hcert, Hkey, Hcert_ok, Hkey_ok, Hchain, Hbind. cbn.
    split; [reflexivity |]. split; [reflexivity |]. cbn.
    split; [reflexivity |]. split; [reflexivity |].
    destruct (sslv2_enabled roleconfig), (sslv3_enabled roleconfig),
      (tlsv1_enabled roleconfig); cbn [negb]; rewrite ?Z.lor_0_r; reflexivity.
Qed.

(** C9: when [remote_endpoint] raises, [handle_tcp] and [handle_ssl] return
    at once: no event at all (no log line, no client instantiated), the
    agent and its tracker as they were, and a normal return rather than an
    exit or an exception. *)
Theorem vanished_peer_is_dropped (this : Agent) sock stream :
  (remote_endpoint sock = None →
   handle_tcp this sock = ([], Returned this))
  ∧ (remote_endpoint (next_layer stream) = None →
     handle_ssl this stream = ([], Returned this)).
Proof.
  split; intros Hgone.
  - unfold handle_tcp. rewrite Hgone. reflexivity.
  - unfold handle_ssl. rewrite Hgone. reflexivity.
Qed.

(** A peer that is still there is logged at debug level and handed to the
    client factory. *)
Lemma present_peer_is_instantiated (this : Agent) sock remote :
  remote_endpoint sock = Some remote →
  handle_tcp this sock
  = ([Log Debug (IncomingConnection remote);
      InstantiateClient (m_client_type this) (m_clientconfig this) (TcpConnection sock)],
     Returned this).
Proof.
  intros Hthere. unfold handle_tcp. rewrite Hthere. reflexivity.
Qed.

End AgentFacts.

(** The defaults with override 43981 and with override 0: the first agent
    carries 43981, the second the hash of the DC file, and a run of calls
    leaves it there. *)
Lemma schema_hash_resolved_once_witness :
  (∃ es agent,
     sample_agent friendly "astron.dc" (configure 1000000 1999999 43981 "" "")
     = (es, Returned agent)
     ∧ m_hash agent = 43981)
  ∧ (∃ es agent,
       sample_agent friendly "astron.dc" (configure 1000000 1999999 0 "" "")
       = (es, Returned agent)
       ∧ m_hash agent = sample_hash "astron.dc"
       ∧ ∀ cs, ∃ es' agent',
           agent_calls 64 agent cs = (es', Returned agent')
           ∧ m_hash agent' = m_hash agent).
Proof.
  split.
  - destruct (schema_hash_resolved_once
                sample_hash 0x80000BFF 0x01000000 0x02000000 0x04000000 64
                friendly "astron.dc" (configure 1000000 1999999 43981 "" ""))
      as [Hreturns _].
    destruct (Hreturns eq_refl ltac:(left; split; reflexivity))
      as (es & agent & Hnew & Hoverride & _).
    exists es, agent. split; [exact Hnew |].
    apply Hoverride. vm_compute. reflexivity.
  - destruct (schema_hash_resolved_once
                sample_hash 0x80000BFF 0x01000000 0x02000000 0x04000000 64
                friendly "astron.dc" (configure 1000000 1999999 0 "" ""))
      as [Hreturns Hany].
    destruct (Hreturns eq_refl ltac:(left; split; reflexivity))
      as (es & agent & Hnew & _ & Hlegacy).
    exists es, agent. split; [exact Hnew |].
    split; [apply Hlegacy; reflexivity |].
    apply (Hany es agent Hnew).
Defined.

(** A certificate without a key. *)
Lemma tls_asymmetry_is_fatal_witness :
  ∃ es status,
    sample_agent friendly "astron.dc" (configure 1000000 1999999 0 "cert.pem" "")
    = (es, Exited status)
    ∧ es = [Log Fatal TlsMaterialMissing]
    ∧ status = 1%Z
    ∧ status ≠ 0%Z
    ∧ ∀ e, e ∈ es → is_bind e = false.
Proof.
  apply (tls_asymmetry_is_fatal
           sample_hash 0x80000BFF 0x01000000 0x02000000 0x04000000
           friendly "astron.dc" (configure 1000000 1999999 0 "cert.pem" "")).
  left. split; [discriminate | reflexivity].
Defined.

(** C8, on the defaults with a channel range: both TLS values are empty
    and the bind succeeds.  The constructor creates the [TcpAcceptor], binds
    it to 0.0.0.0:7198, starts it and returns the agent; it logs nothing,
    where the comment in that branch asks for a loud warning to the user. *)
Lemma plaintext_listener_without_warning :
  sample_agent friendly "astron.dc" (configure 1000000 1999999 0 "" "")
  = ([NewAcceptor TcpAcceptor; Bind "0.0.0.0:7198" 7198; Start],
     Returned listening_agent)
  ∧ filter is_log
      (fst (sample_agent friendly "astron.dc" (configure 1000000 1999999 0 "" "")))
    = [].
Proof.
  split; reflexivity.
Qed.

(** The same start-up through the general statement. *)
Lemma listener_selection_witness :
  ∃ es agent,
    sample_agent friendly "astron.dc" (configure 1000000 1999999 0 "" "")
    = (es, Returned agent)
    ∧ es = [NewAcceptor TcpAcceptor; Bind "0.0.0.0:7198" 7198; Start]
    ∧ m_net_acceptor agent = TcpAcceptor
    ∧ ∀ e, e ∈ es → is_log e = false.
Proof.
  apply (listener_selection
           sample_hash 0x80000BFF 0x01000000 0x02000000 0x04000000
           friendly "astron.dc" (configure 1000000 1999999 0 "" "") eq_refl);
    reflexivity.
Defined.

(** A plaintext and a TLS connection whose peers are gone. *)
Lemma vanished_peer_is_dropped_witness :
  handle_tcp listening_agent {| native_handle := 7; remote_endpoint := None |}
  = ([], Returned listening_agent)
  ∧ handle_ssl listening_agent
      {| next_layer := {| native_handle := 8; remote_endpoint := None |} |}
    = ([], Returned listening_agent).
Proof.
  pose proof (vanished_peer_is_dropped listening_agent
                {| native_handle := 7; remote_endpoint := None |}
                {| next_layer := {| native_handle := 8; remote_endpoint := None |} |})
    as [Htcp Hssl].
  split; [apply Htcp | apply Hssl]; reflexivity.
Defined.

(** * Runs of the agent *)

Section AgentRuns.

Context {ConfigNode DCFile : Type}.
Variable legacy_hash : DCFile → N.
Variables default_workarounds no_sslv2 no_sslv3 no_tlsv1 : Z.
Variable channel_bits : N.

Local Abbreviation construct :=
  (ClientAgent_new (ConfigNode := ConfigNode)
     legacy_hash default_workarounds no_sslv2 no_sslv3 no_tlsv1).
Local Abbreviation Agent := (@ClientAgent ConfigNode).

(** The acceptor part of the constructor, by the four cases of the TLS
    settings and the files. *)
Lemma ssl_acceptor_cases env (roleconfig : @RoleConfig ConfigNode) certificate :
  let loads :=
    certificate_file_loads env certificate
    && private_key_file_loads env (tls_key roleconfig)
    && (empty (tls_chain roleconfig)
        || certificate_chain_file_loads env (tls_chain roleconfig)) in
  (loads = false
   ∧ ssl_acceptor default_workarounds no_sslv2 no_sslv3 no_tlsv1 env roleconfig certificate
     = ([], Threw))
  ∨ (loads = true
     ∧ ∃ ctx,
         ssl_acceptor default_workarounds no_sslv2 no_sslv3 no_tlsv1 env roleconfig
           certificate
         = ([NewAcceptor (SslAcceptor ctx)], Returned (SslAcceptor ctx))
         ∧ ctx_certificate_file ctx = certificate
         ∧ ctx_private_key_file ctx = tls_key roleconfig
         ∧ ctx_certificate_chain_file ctx
           = (if empty (tls_chain roleconfig) then None else Some (tls_chain roleconfig))).
Proof.
  unfold ssl_acceptor.
  destruct (certificate_file_loads env certificate); [| left; split; reflexivity].
  destruct (private_key_file_loads env (tls_key roleconfig));
    [| left; split; reflexivity].
  destruct (empty (tls_chain roleconfig)).
  - right. split; [reflexivity |]. eexists. cbn. repeat split.
  - destruct (certificate_chain_file_loads env (tls_chain roleconfig)).
    + right. split; [reflexivity |]. eexists. cbn. repeat split.
    + left. split; reflexivity.
Qed.


(** A returned agent has seen every start-up step succeed: the events of
    the constructor were exactly one acceptor created, one bind to the
    configured address and one start; the bind reported no error; the TLS
    values were both empty and the acceptor is a [TcpAcceptor], or both set
    with files that loaded and the acceptor is an [SslAcceptor] over that
    material (the chain file only when one is configured); and the tracker
    starts over the configured range. *)
Theorem returned_agent_is_listening env g_dcf (roleconfig : @RoleConfig ConfigNode)
    es (agent : Agent) :
  construct env g_dcf roleconfig = (es, Returned agent) →
  es = [NewAcceptor (m_net_acceptor agent); Bind (bind_addr roleconfig) 7198; Start]
  ∧ bind_error env (bind_addr roleconfig) 7198 = 0%Z
  ∧ m_roleconfig agent = roleconfig
  ∧ m_server_version agent = server_version roleconfig
  ∧ m_ct agent = ChannelTracker_new (min_channel roleconfig) (max_channel roleconfig)
  ∧ ((tls_cert roleconfig = "" ∧ tls_key roleconfig = ""
      ∧ m_net_acceptor agent = TcpAcceptor)
     ∨ (tls_cert roleconfig ≠ "" ∧ tls_key roleconfig ≠ ""
        ∧ certificate_file_loads env (tls_cert roleconfig) = true
        ∧ private_key_file_loads env (tls_key roleconfig) = true
        ∧ (tls_chain roleconfig ≠ "" →
           certificate_chain_file_loads env (tls_chain roleconfig) = true)
        ∧ ∃ ctx,
            m_net_acceptor agent = SslAcceptor ctx
            ∧ ctx_certificate_file ctx = tls_cert roleconfig
            ∧ ctx_private_key_file ctx = tls_key roleconfig
            ∧ ctx_certificate_chain_file ctx
              = (if empty (tls_chain roleconfig) then None
                 else Some (tls_chain roleconfig)))).
Proof.
  unfold ClientAgent_new.
  destruct (empty (tls_cert roleconfig)) eqn:Hcert,
           (empty (tls_key roleconfig)) eqn:Hkey; cbn [andb negb eqb].
  - (* plaintext *)
    cbn. destruct (bind_error env (bind_addr roleconfig) 7198 =? 0)%Z eqn:Hec;
      cbn; [| discriminate].
    intros [= <- <-]. cbn. apply Z.eqb_eq in Hec.
    apply empty_true in Hcert, Hkey.
    repeat split; try assumption. left. repeat split; assumption.
  - cbn. discriminate.
  - cbn. discriminate.
  - (* TLS *)
    destruct (ssl_acceptor_cases env roleconfig (tls_cert roleconfig))
      as [(_ & ->) | (Hloads & ctx & -> & Hc & Hk & Hch)]; [cbn; discriminate |].
    cbn. destruct (bind_error env (bind_addr roleconfig) 7198 =? 0)%Z eqn:Hec;
      cbn; [| discriminate].
    intros [= <- <-]. cbn. apply Z.eqb_eq in Hec.
    apply empty_false in Hcert, Hkey.
    apply andb_true_iff in Hloads as [Hloads Hchain].
    apply andb_true_iff in Hloads as [Hcert_ok Hkey_ok].
    repeat split; try assumption. right.
    split; [exact Hcert |]. split; [exact Hkey |].
    split; [exact Hcert_ok |]. split; [exact Hkey_ok |]. split.
    + intros Hne. apply empty_false in Hne. rewrite Hne in Hchain. exact Hchain.
    + exists ctx. repeat split; assumption.
Qed.

(** A bind that reports an error never yields a running agent: the
    constructor ends in [exit(1)] or an exception and the acceptor is never
    started.  On the plaintext path it logs the address and the error code
    as fatal after the bind and exits with status 1. *)
Theorem bind_failure_is_fatal env g_dcf (roleconfig : @RoleConfig ConfigNode) :
  bind_error env (bind_addr roleconfig) 7198 ≠ 0%Z →
  (∃ es outcome,
     construct env g_dcf roleconfig = (es, outcome)
     ∧ (outcome = Exited 1 ∨ outcome = Threw)
     ∧ Start ∉ es)
  ∧ (tls_cert roleconfig = "" → tls_key roleconfig = "" →
     construct env g_dcf roleconfig
     = ([NewAcceptor TcpAcceptor;
         Bind (bind_addr roleconfig) 7198;
         Log Fatal (CouldNotBind (bind_addr_val env));
         Log Fatal (BindErrorCode (bind_error env (bind_addr roleconfig) 7198))],
        Exited 1)).
Proof.
  intros Hec. apply Z.eqb_neq in Hec. split.
  - unfold ClientAgent_new.
    destruct (empty (tls_cert roleconfig)), (empty (tls_key roleconfig));
      cbn [andb negb eqb].
    + cbn. rewrite Hec. cbn. eexists. eexists.
      split; [reflexivity |]. split; [left; reflexivity |].
      intros Hin. repeat (apply elem_of_cons in Hin as [Hin | Hin]; [discriminate |]).
      inversion Hin.
    + cbn. eexists. eexists. split; [reflexivity |]. split; [left; reflexivity |].
      intros Hin. apply list_elem_of_singleton in Hin. discriminate.
    + cbn. eexists. eexists. split; [reflexivity |]. split; [left; reflexivity |].
      intros Hin. apply list_elem_of_singleton in Hin. discriminate.
    + destruct (ssl_acceptor_cases env roleconfig (tls_cert roleconfig))
        as [(_ & ->) | (_ & ctx & -> & _)].
      * cbn. eexists. eexists. split; [reflexivity |]. split; [right; reflexivity |].
        intros Hin. inversion Hin.
      * cbn. rewrite Hec. cbn. eexists. eexists.
        split; [reflexivity |]. split; [left; reflexivity |].
        intros Hin. repeat (apply elem_of_cons in Hin as [Hin | Hin]; [discriminate |]).
        inversion Hin.
  - intros Hcert Hkey. unfold ClientAgent_new.
    rewrite Hcert, Hkey. cbn. rewrite Hec. reflexivity.
Qed.

(** With certificate and key both set, a certificate, key or configured
    chain file that does not load makes the constructor leave by the
    exception of the [ssl::context] call: nothing is logged, no acceptor is
    created and no bind is attempted. *)
Theorem tls_load_failure_throws env g_dcf (roleconfig : @RoleConfig ConfigNode) :
  tls_cert roleconfig ≠ "" →
  tls_key roleconfig ≠ "" →
  certificate_file_loads env (tls_cert roleconfig) = false
  ∨ private_key_file_loads env (tls_key roleconfig) = false
  ∨ (tls_chain roleconfig ≠ ""
     ∧ certificate_chain_file_loads env (tls_chain roleconfig) = false) →
  construct env g_dcf roleconfig = ([], Threw).
Proof.
  intros Hcert Hkey Hbad.
  apply empty_false in Hcert, Hkey.
  unfold ClientAgent_new. rewrite Hcert, Hkey. cbn [andb negb eqb].
  destruct (ssl_acceptor_cases env roleconfig (tls_cert roleconfig))
    as [(_ & ->) | (Hloads & _)]; [reflexivity |].
  exfalso.
  apply andb_true_iff in Hloads as [Hloads Hchain].
  apply andb_true_iff in Hloads as [Hcert_ok Hkey_ok].
  destruct Hbad as [Hbad | [Hbad | [Hne Hbad]]]; [congruence | congruence |].
  apply empty_false in Hne. rewrite Hne, Hbad in Hchain. discriminate.
Qed.


(** A connection whose peer is still there goes to the client factory with
    the client type and client configuration the agent was constructed
    from. *)
Theorem accepted_peer_gets_configured_client env g_dcf
    (roleconfig : @RoleConfig ConfigNode) es (agent : Agent) sock stream remote :
  construct env g_dcf roleconfig = (es, Returned agent) →
  (remote_endpoint sock = Some remote →
   handle_tcp agent sock
   = ([Log Debug (IncomingConnection remote);
       InstantiateClient (ca_client_type roleconfig) (ca_client_config roleconfig)
         (TcpConnection sock)],
      Returned agent))
  ∧ (remote_endpoint (next_layer stream) = Some remote →
     handle_ssl agent stream
     = ([Log Debug (IncomingConnection remote);
         InstantiateClient (ca_client_type roleconfig) (ca_client_config roleconfig)
           (SslConnection stream)],
        Returned agent)).
Proof.
  intros Hnew.
  destruct (construct_returned _ _ _ _ _ _ _ _ _ _ Hnew) as (_ & _ & Htype & Hconfig).
  split; intros Hthere.
  - unfold handle_tcp. rewrite Hthere, Htype, Hconfig. reflexivity.
  - unfold handle_ssl. rewrite Hthere, Htype, Hconfig. reflexivity.
Qed.

Lemma instantiated_app (es1 es2 : list (@event ConfigNode)) :
  instantiated (es1 ++ es2) = instantiated es1 ++ instantiated es2.
Proof.
  induction es1 as [| e es1 IH]; [reflexivity |].
  destruct e; simpl; rewrite IH; reflexivity.
Qed.

(** One call on the agent: the clients it creates and what it does to the
    agent. *)
Lemma agent_call_run_effect (this : Agent) c :
  ∃ es,
    agent_call_run channel_bits this c
    = (es, Returned (with_ct this (tracker_run channel_bits (m_ct this) (tracker_calls [c]))))
    ∧ instantiated es = present_peers [c].
Proof.
  assert (Hsame : with_ct this (m_ct this) = this) by (destruct this; reflexivity).
  destruct c as [sock | stream | | | channel]; cbn;
    unfold tracker_run; cbn [foldl]; rewrite ?Hsame.
  - unfold handle_tcp. destruct (remote_endpoint sock); cbn; eauto.
  - unfold handle_ssl. destruct (remote_endpoint (next_layer stream)); cbn; eauto.
  - eauto.
  - eauto.
  - eauto.
Qed.

(** Any run of accepted connections, datagrams and tracker calls returns
    to the event loop.  The clients created are the connections whose peer
    was still there, one each, in the order of acceptance.  The agent
    changes in its tracker only, by the tracker calls of the run only; a
    run without tracker calls leaves the agent as it was. *)
Theorem agent_run_effect (this : Agent) (cs : list agent_call) :
  ∃ es,
    agent_calls channel_bits this cs
    = (es, Returned (with_ct this (tracker_run channel_bits (m_ct this) (tracker_calls cs))))
    ∧ instantiated es = present_peers cs
    ∧ (tracker_calls cs = [] → snd (agent_calls channel_bits this cs) = Returned this).
Proof.
  assert (Hsame : ∀ a : Agent, with_ct a (m_ct a) = a) by (intros []; reflexivity).
  revert this. induction cs as [| c cs IH]; intros this.
  - exists []. cbn. rewrite Hsame. repeat split.
  - destruct (agent_call_run_effect this c) as (es1 & Hrun & Hinst1).
    destruct (IH (with_ct this (tracker_run channel_bits (m_ct this) (tracker_calls [c]))))
      as (es2 & Hrest & Hinst2 & _).
    assert (Hfinal :
      agent_calls channel_bits this (c :: cs)
      = (es1 ++ es2,
         Returned (with_ct this
                     (tracker_run channel_bits (m_ct this) (tracker_calls (c :: cs)))))).
    { cbn [agent_calls]. unfold mbind, M_bind, bind. rewrite Hrun, Hrest.
      f_equal. f_equal. unfold with_ct. cbn [m_ct]. f_equal.
      destruct c; reflexivity. }
    exists (es1 ++ es2). split; [exact Hfinal |]. split.
    + rewrite instantiated_app, Hinst1, Hinst2.
      destruct c as [sock | stream | | |]; cbn;
        try reflexivity.
      * destruct (remote_endpoint sock); reflexivity.
      * destruct (remote_endpoint (next_layer stream)); reflexivity.
    + intros Hnone. rewrite Hfinal, Hnone. cbn. unfold tracker_run. cbn.
      rewrite Hsame. reflexivity.
Qed.

(** From construction to the next allocation: the tracker of a running
    agent hands out ids of the configured range only. *)
Theorem agent_allocates_in_configured_range env g_dcf
    (roleconfig : @RoleConfig ConfigNode) es (agent : Agent) cs es' (agent' : Agent) :
  construct env g_dcf roleconfig = (es, Returned agent) →
  agent_calls channel_bits agent cs = (es', Returned agent') →
  max_channel roleconfig < CHANNEL_MAX channel_bits →
  releases_live channel_bits
    (Pool_new (min_channel roleconfig) (max_channel roleconfig)) (tracker_calls cs)
  = true →
  (exhausted (m_ct agent') = true ∧ fst (alloc_channel channel_bits (m_ct agent')) = 0)
  ∨ (exhausted (m_ct agent') = false
     ∧ min_channel roleconfig
       ≤ fst (alloc_channel channel_bits (m_ct agent'))
       ≤ max_channel roleconfig).
Proof.
  intros Hnew Hrun Hmax Hok.
  destruct (construct_returned _ _ _ _ _ _ _ _ _ _ Hnew) as (_ & Hct & _).
  destruct (agent_run_effect agent cs) as (es2 & Hrun' & _).
  rewrite Hrun in Hrun'. injection Hrun' as _ ->.
  cbn [with_ct m_ct]. rewrite Hct.
  change (ChannelTracker_new (min_channel roleconfig) (max_channel roleconfig))
    with (tracker (Pool_new (min_channel roleconfig) (max_channel roleconfig))).
  rewrite <- tracker_run_calls.
  set (p := calls channel_bits
              (Pool_new (min_channel roleconfig) (max_channel roleconfig))
              (tracker_calls cs)).
  destruct (exhausted (tracker p)) eqn:Hex.
  - left. split; [reflexivity |].
    apply exhausted_spec in Hex as [Hgt Hq].
    rewrite alloc_channel_exhausted by assumption. reflexivity.
  - right. split; [reflexivity |].
    apply (allocations_in_range channel_bits _ _ (tracker_calls cs) Hmax Hok).
    exact Hex.
Qed.

End AgentRuns.

(** A TLS start-up on the defaults. *)
Lemma returned_agent_is_listening_witness :
  ∃ es agent,
    sample_agent friendly "astron.dc"
      (configure 1000000 1999999 0 "cert.pem" "key.pem")
    = (es, Returned agent)
    ∧ es = [NewAcceptor (m_net_acceptor agent); Bind "0.0.0.0:7198" 7198; Start]
    ∧ m_ct agent = ChannelTracker_new 1000000 1999999.
Proof.
  eexists. eexists. split; [reflexivity |].
  pose proof (returned_agent_is_listening
                sample_hash 0x80000BFF 0x01000000 0x02000000 0x04000000
                friendly "astron.dc" (configure 1000000 1999999 0 "cert.pem" "key.pem")
                _ _ eq_refl) as (Hes & _ & _ & _ & Hct & _).
  split; [exact Hes | exact Hct].
Defined.

(** The address is in use (error code 98). *)
Lemma bind_failure_is_fatal_witness :
  sample_agent
    {| certificate_file_loads := λ _, true;
       private_key_file_loads := λ _, true;
       certificate_chain_file_loads := λ _, true;
       bind_error := λ _ _, 98%Z;
       bind_addr_val := "0.0.0.0:7198" |}
    "astron.dc" (configure 1000000 1999999 0 "" "")
  = ([NewAcceptor TcpAcceptor;
      Bind "0.0.0.0:7198" 7198;
      Log Fatal (CouldNotBind "0.0.0.0:7198");
      Log Fatal (BindErrorCode 98)],
     Exited 1).
Proof.
  apply (bind_failure_is_fatal
           sample_hash 0x80000BFF 0x01000000 0x02000000 0x04000000
           {| certificate_file_loads := λ _, true;
              private_key_file_loads := λ _, true;
              certificate_chain_file_loads := λ _, true;
              bind_error := λ _ _, 98%Z;
              bind_addr_val := "0.0.0.0:7198" |}
           "astron.dc" (configure 1000000 1999999 0 "" ""));
    [simpl; lia | reflexivity | reflexivity].
Defined.

(** A key file that does not load. *)
Lemma tls_load_failure_throws_witness :
  sample_agent
    {| certificate_file_loads := λ _, true;
       private_key_file_loads := λ _, false;
       certificate_chain_file_loads := λ _, true;
       bind_error := λ _ _, 0%Z;
       bind_addr_val := "0.0.0.0:7198" |}
    "astron.dc" (configure 1000000 1999999 0 "cert.pem" "key.pem")
  = ([], Threw).
Proof.
  apply (tls_load_failure_throws
           sample_hash 0x80000BFF 0x01000000 0x02000000 0x04000000
           {| certificate_file_loads := λ _, true;
              private_key_file_loads := λ _, false;
              certificate_chain_file_loads := λ _, true;
              bind_error := λ _ _, 0%Z;
              bind_addr_val := "0.0.0.0:7198" |}
           "astron.dc" (configure 1000000 1999999 0 "cert.pem" "key.pem"));
    [discriminate | discriminate | right; left; reflexivity].
Defined.

(** A plaintext connection from 192.0.2.7:50000 to the default agent. *)
Lemma accepted_peer_gets_configured_client_witness :
  handle_tcp listening_agent
    {| native_handle := 7;
       remote_endpoint := Some {| address := "192.0.2.7"; port := 50000 |} |}
  = ([Log Debug (IncomingConnection {| address := "192.0.2.7"; port := 50000 |});
      InstantiateClient "libastron" "client"
        (TcpConnection
           {| native_handle := 7;
              remote_endpoint := Some {| address := "192.0.2.7"; port := 50000 |} |})],
     Returned listening_agent).
Proof.
  pose proof (accepted_peer_gets_configured_client
                sample_hash 0x80000BFF 0x01000000 0x02000000 0x04000000
                friendly "astron.dc" (configure 1000000 1999999 0 "" "")
                _ listening_agent
                {| native_handle := 7;
                   remote_endpoint := Some {| address := "192.0.2.7"; port := 50000 |} |}
                {| next_layer := {| native_handle := 8; remote_endpoint := None |} |}
                {| address := "192.0.2.7"; port := 50000 |}
                eq_refl) as [Htcp _].
  apply Htcp. reflexivity.
Defined.

(** The default agent after two sessions came, one left and a peer
    vanished. *)
Lemma agent_allocates_in_configured_range_witness :
  ∃ es' agent',
    agent_calls 64 listening_agent
      [AllocChannel; HandleTcp {| native_handle := 7; remote_endpoint := None |};
       AllocChannel; FreeChannel 1000000]
    = (es', Returned agent')
    ∧ exhausted (m_ct agent') = false
    ∧ 1000000 ≤ fst (alloc_channel 64 (m_ct agent')) ≤ 1999999.
Proof.
  eexists. eexists. split; [reflexivity |].
  destruct (agent_allocates_in_configured_range
              sample_hash 0x80000BFF 0x01000000 0x02000000 0x04000000 64
              friendly "astron.dc" (configure 1000000 1999999 0 "" "")
              _ listening_agent
              [AllocChannel; HandleTcp {| native_handle := 7; remote_endpoint := None |};
               AllocChannel; FreeChannel 1000000]
              _ _ eq_refl eq_refl
              ltac:(vm_compute; reflexivity) ltac:(vm_compute; reflexivity))
    as [[Hex _] | Hin].
  - discriminate Hex.
  - exact Hin.
Defined.
